(** * AI Quiz Generator: a shallow embedding of the client-side logic

    The development follows the TypeScript sources:
    - [QuizDisplay] (components/QuizDisplay.tsx): the quiz session, its
      event handlers and the score computation;
    - [App] (App.tsx): [shuffleArray];
    - [QuizInput] (components/QuizInput.tsx): the question-count input and
      the submit validation;
    - [GeminiService] (services/geminiService.ts): the validation of the
      parsed model response.
    - [QuestionCard] (components/QuizDisplay.tsx): the option buttons of a
      question;
    - [UsePdfProcessor] (hooks/usePdfProcessor.ts): the text extraction;
    - [QuizInputForm] (components/QuizInput.tsx): the form controls;
    - [AppState] (App.tsx): the state of the App component and what it
      renders.
    - [QuizLifecycle] (App.tsx, components/QuizDisplay.tsx): the quiz
      display with its reset button, mounted and unmounted by App.

    JavaScript numbers that only ever hold integers are modelled in [Z],
    array indices and lengths in [nat], objects used as maps as [gmap],
    arrays as lists; the one product of doubles the code takes, in
    [shuffleArray], is rounded as the double-precision product is. *)

From Stdlib Require Import ZArith QArith Qround Qminmax Lia.
From stdpp Require Import gmap strings list.

Local Open Scope Z_scope.

(** ** Data model (types.ts: [Question], [Quiz]) *)

Record Question := mkQuestion {
  questionText : string;
  options : list string;
  correctAnswer : string
}.

Record Quiz := mkQuiz {
  questions : list Question
}.

(** * QuizDisplay *)
Module QuizDisplay.

(** The component state: [userAnswers] is a JS object keyed by the question
    index, the two flags are the [useState] booleans. *)
Record State := mkState {
  userAnswers : gmap nat string;
  showResults : bool;
  isConfirmModalOpen : bool
}.

(** [useState({})], [useState(false)], [useState(false)]. *)
Definition initial : State :=
  {| userAnswers := ∅; showResults := false; isConfirmModalOpen := false |}.

(** The phases of the session as the component renders them: the results
    block replaces the submit button as soon as [showResults] is set; the
    confirmation modal is the overlay shown while [isConfirmModalOpen]. *)
Inductive Phase := Answering | ConfirmPending | Results.

Definition phase (s : State) : Phase :=
  if showResults s then Results
  else if isConfirmModalOpen s then ConfirmPending
  else Answering.

(** *** Event handlers *)

(** [handleAnswerSelect]: returns early when the results are shown, otherwise
    [{ ...prev, [questionIndex]: option }]. *)
Definition handleAnswerSelect (s : State) (questionIndex : nat) (option : string) : State :=
  if showResults s then s
  else {| userAnswers := <[questionIndex := option]> (userAnswers s);
          showResults := showResults s;
          isConfirmModalOpen := isConfirmModalOpen s |}.

(** [handleSubmitClick]: [Object.keys(userAnswers).length] is compared with
    [quiz.questions.length]. *)
Definition handleSubmitClick (quiz : Quiz) (s : State) : State :=
  let answeredCount := size (userAnswers s) in
  if (answeredCount <? length (questions quiz))%nat
  then {| userAnswers := userAnswers s;
          showResults := showResults s;
          isConfirmModalOpen := true |}
  else {| userAnswers := userAnswers s;
          showResults := true;
          isConfirmModalOpen := isConfirmModalOpen s |}.

(** [handleConfirmSubmit]. *)
Definition handleConfirmSubmit (s : State) : State :=
  {| userAnswers := userAnswers s;
     showResults := true;
     isConfirmModalOpen := false |}.

(** The modal's [onCancel]: [() => setIsConfirmModalOpen(false)]. *)
Definition handleCancel (s : State) : State :=
  {| userAnswers := userAnswers s;
     showResults := showResults s;
     isConfirmModalOpen := false |}.

(** *** The score [useMemo] *)

Record Score := mkScore {
  score : Z;
  correctCount : Z;
  incorrectCount : Z;
  unansweredCount : Z
}.

(** The body of the [forEach] callback at [index], on the pair of counters
    [(correct, incorrect)].  [quiz.questions[index]] is read from the array;
    reading [.correctAnswer] of a missing element would throw, which is the
    [None] result. *)
Definition scoreCallback (quiz : Quiz) (answers : gmap nat string)
    (acc : Z * Z) (index : nat) : option (Z * Z) :=
  let '(correct, incorrect) := acc in
  match answers !! index with
  | None => Some (correct, incorrect)
  | Some userAnswer =>
      match questions quiz !! index with
      | None => None
      | Some q =>
          if decide (userAnswer = correctAnswer q)
          then Some (correct + 1, incorrect)
          else Some (correct, incorrect + 1)
      end
  end.

(** [forEach] visits the indices [0 .. length-1] in increasing order. *)
Fixpoint forEachIndex (f : Z * Z -> nat -> option (Z * Z))
    (indices : list nat) (acc : Z * Z) : option (Z * Z) :=
  match indices with
  | [] => Some acc
  | index :: rest =>
      match f acc index with
      | None => None
      | Some acc' => forEachIndex f rest acc'
      end
  end.

(** The memoised score; [None] stands for an exception thrown while
    computing it. *)
Definition scoreMemo (quiz : Quiz) (answers : gmap nat string)
    (showRes negativeMarking : bool) : option Score :=
  if negb showRes then
    Some {| score := 0; correctCount := 0; incorrectCount := 0;
            unansweredCount := Z.of_nat (length (questions quiz)) |}
  else
    match forEachIndex (scoreCallback quiz answers)
            (seq 0 (length (questions quiz))) (0, 0) with
    | None => None
    | Some (correct, incorrect) =>
        let finalScore := if negativeMarking then correct - incorrect else correct in
        let unanswered := Z.of_nat (length (questions quiz)) - correct - incorrect in
        Some {| score := finalScore; correctCount := correct;
                incorrectCount := incorrect; unansweredCount := unanswered |}
    end.

(** *** What the rendered component lets the user do

    An option button exists for every index of [quiz.questions] and every
    element of that question's [options], and is [disabled] once the results
    are shown; the "Check Answers" button is rendered only while the results
    are not shown; the modal's two buttons exist only while the modal is
    open.  The modal is a visual overlay: the buttons under it stay in the
    document and are not disabled by it.  The "Create Another Quiz" button
    of the results block ends the session instead of changing its state:
    see [QuizLifecycle]. *)
Inductive Event :=
  | ClickOption (questionIndex : nat) (option : string)
  | ClickCheckAnswers
  | ClickModalSubmit
  | ClickModalCancel.

Definition rendered (quiz : Quiz) (s : State) (e : Event) : bool :=
  match e with
  | ClickOption questionIndex option =>
      match questions quiz !! questionIndex with
      | Some q => bool_decide (option ∈ options q) && negb (showResults s)
      | None => false
      end
  | ClickCheckAnswers => negb (showResults s)
  | ClickModalSubmit => isConfirmModalOpen s
  | ClickModalCancel => isConfirmModalOpen s
  end.

(** One user interaction: a control that is not rendered (or is disabled)
    cannot fire its handler. *)
Definition dispatch (quiz : Quiz) (s : State) (e : Event) : State :=
  if rendered quiz s e then
    match e with
    | ClickOption questionIndex option => handleAnswerSelect s questionIndex option
    | ClickCheckAnswers => handleSubmitClick quiz s
    | ClickModalSubmit => handleConfirmSubmit s
    | ClickModalCancel => handleCancel s
    end
  else s.

(** The session after a sequence of interactions, from the freshly mounted
    component. *)
Definition run (quiz : Quiz) (events : list Event) : State :=
  fold_left (dispatch quiz) events initial.

(** *** The scoring rule in the words of the specification

    Each question index is unanswered if no answer is recorded, correct if
    the recorded answer equals the question's [correctAnswer], incorrect
    otherwise. *)
Inductive Verdict := Unanswered | Correct | Incorrect.

Global Instance Verdict_eq_dec : EqDecision Verdict.
Proof. solve_decision. Defined.

Definition classify (q : Question) (answer : option string) : Verdict :=
  match answer with
  | None => Unanswered
  | Some a => if decide (a = correctAnswer q) then Correct else Incorrect
  end.

(** The verdict at a question index; [None] outside the quiz. *)
Definition verdictAt (quiz : Quiz) (answers : gmap nat string) (index : nat)
    : option Verdict :=
  (λ q, classify q (answers !! index)) <$> questions quiz !! index.

(** How many of the given indices get verdict [v]; [tally] counts over the
    question indices [0 .. N-1]. *)
Definition tallyOver (v : Verdict) (quiz : Quiz) (answers : gmap nat string)
    (indices : list nat) : nat :=
  length (filter (λ index, verdictAt quiz answers index = Some v) indices).

Definition tally (v : Verdict) (quiz : Quiz) (answers : gmap nat string) : nat :=
  tallyOver v quiz answers (seq 0 (length (questions quiz))).

(** Every question index has a recorded answer. *)
Definition allAnswered (quiz : Quiz) (answers : gmap nat string) : Prop :=
  ∀ index, (index < length (questions quiz))%nat → is_Some (answers !! index).

(** The keys of the answer map are question indices. *)
Definition inRange (quiz : Quiz) (s : State) : Prop :=
  ∀ index, is_Some (userAnswers s !! index) →
           (index < length (questions quiz))%nat.

(** A three-question quiz and the session of the specification's scenario:
    question 0 answered correctly, question 1 incorrectly, question 2 left
    unanswered, then "Check Answers" and the modal's "Submit". *)
Definition sampleQuiz : Quiz :=
  {| questions :=
       [ mkQuestion "q0" ["a"; "b"; "c"; "d"] "a";
         mkQuestion "q1" ["a"; "b"; "c"; "d"] "b";
         mkQuestion "q2" ["a"; "b"; "c"; "d"] "c" ] |}.

Definition sampleEvents : list Event :=
  [ClickOption 0 "a"; ClickOption 1 "c"; ClickCheckAnswers; ClickModalSubmit].

End QuizDisplay.

(** * App: shuffleArray *)
Module App.

(** ** [Math.random() * (i + 1)] in double precision

    A value of [Math.random()] is a double in [[0, 1)], that is a number
    [significand * 2^(-scale)] with [0 <= significand < 2^53] and
    [53 <= scale <= 1074] (zero, the subnormal and the normal doubles
    below one all have this form).  The factor [i + 1] is an integer that
    a double holds exactly (array lengths are below [2^32]). *)
Record UnitDouble := mkUnitDouble { significand : Z; scale : Z }.

Definition inUnit (d : UnitDouble) : Prop :=
  0 <= significand d < 2 ^ 53 ∧ 53 <= scale d <= 1074.

(** [N / 2^s] rounded to the nearest integer, ties to the even one; for
    [s <= 0] the quotient is the integer [N * 2^(-s)]. *)
Definition roundShift (N s : Z) : Z :=
  if s <=? 0 then N * 2 ^ (- s)
  else
    let q := N / 2 ^ s in
    let rest := N mod 2 ^ s in
    let half := 2 ^ (s - 1) in
    if rest <? half then q
    else if half <? rest then q + 1
    else if Z.even q then q else q + 1.

(** [Math.floor(d * n)]: the exact product [N * 2^(-scale)] with
    [N = significand * n] lies in the binade [e]; the multiplication
    returns the multiple [k * 2^E] of the unit in the last place
    [2^E], [E = max(e, -1022) - 52], nearest to it (ties to even), and
    [Math.floor] takes the integer part of that double. *)
Definition floorOfProduct (d : UnitDouble) (n : Z) : Z :=
  let N := significand d * n in
  if N <=? 0 then 0
  else
    let e := Z.log2 N - scale d in
    let E := Z.max e (-1022) - 52 in
    let k := roundShift N (scale d + E) in
    if 0 <=? E then k * 2 ^ E else k / 2 ^ (- E).

(** A double in [[0, 1)] whose product with [n] lies near [j + 1/2]. *)
Definition drawFor (j n : Z) : UnitDouble :=
  {| significand := (2 * j + 1) * 2 ^ 52 / n + 1; scale := 53 |}.

(** The double 0.5. *)
Definition oneHalf : UnitDouble := {| significand := 2 ^ 52; scale := 53 |}.

Section JsArray.
Context {A : Type}.

(** A JavaScript array of [A]: a slot holds [Some x] or [undefined]. *)
Definition get (array : list (option A)) (i : nat) : option A :=
  match array !! i with
  | Some slot => slot
  | None => None
  end.

(** [array[i] = v]: writing past the end extends the array with holes. *)
Definition set (array : list (option A)) (i : nat) (v : option A)
    : list (option A) :=
  if decide (i < length array)%nat then <[i := v]> array
  else array ++ replicate (i - length array)%nat None ++ [v].

(** [[array[i], array[j]] = [array[j], array[i]]]: both reads happen
    first, then [array[i]] is written, then [array[j]]. *)
Definition swap (array : list (option A)) (i j : nat) : list (option A) :=
  let aj := get array j in
  let ai := get array i in
  set (set array i aj) j ai.

(** [Math.floor(r * (i + 1))] for the value [r] returned by
    [Math.random()]; the product is the double-precision one, and it is
    never negative, so the index is a natural number. *)
Definition randomIndex (r : UnitDouble) (i : nat) : nat :=
  Z.to_nat (floorOfProduct r (Z.of_nat i + 1)).

(** The loop [for (i = ...; i > 0; i--)]; [random k] is what the [k]-th
    call of [Math.random()] returns and [calls] counts the calls made so
    far. *)
Fixpoint shuffleLoop (random : nat -> UnitDouble) (calls : nat) (i : nat)
    (array : list (option A)) : list (option A) :=
  match i with
  | O => array
  | S i' =>
      let j := randomIndex (random calls) i in
      shuffleLoop random (S calls) i' (swap array i j)
  end.

(** [shuffleArray]: the loop starts at [array.length - 1]; for the empty
    array that is [-1] and the loop does not run, as with [0]. *)
Definition shuffleArray (random : nat -> UnitDouble) (array : list (option A))
    : list (option A) :=
  shuffleLoop random 0 (length array - 1)%nat array.

(** A random source as [Math.random] promises it: every value is a
    double in [[0, 1)]. *)
Definition unitInterval (random : nat -> UnitDouble) : Prop :=
  ∀ k, inUnit (random k).

(** *** Fisher-Yates in the words of the specification

    For index [i] from the last element down to 1, take an index
    [draw i] in [[0, i]] and exchange the elements at [i] and [draw i]. *)
Definition exchange (l : list A) (i j : nat) : list A :=
  match l !! i, l !! j with
  | Some x, Some y => <[j := x]> (<[i := y]> l)
  | _, _ => l
  end.

Fixpoint fisherYatesFrom (draw : nat -> nat) (i : nat) (l : list A) : list A :=
  match i with
  | O => l
  | S i' => fisherYatesFrom draw i' (exchange l i (draw i))
  end.

Definition fisherYates (draw : nat -> nat) (l : list A) : list A :=
  fisherYatesFrom draw (length l - 1)%nat l.

(** The index the source draws at position [i] of an array of length [n]:
    the loop reaches [i] at its call number [n - 1 - i]. *)
Definition drawAt (random : nat -> UnitDouble) (n : nat) (i : nat) : nat :=
  randomIndex (random (n - 1 - i)%nat) i.
End JsArray.

End App.

(** * QuizInput *)
Module QuizInput.

Inductive InputMode := TextMode | PdfMode.
Inductive Difficulty := Easy | Medium | Hard | Mixed.

(** The text typed by the user is a JavaScript string: a sequence of UTF-16
    code units, whose [length] counts the code units. *)
Definition CodeUnit := N.
Definition Text := list CodeUnit.

(** The code units [String.prototype.trim] strips: ECMAScript WhiteSpace
    (TAB, VT, FF, ZWNBSP and the space separators) and LineTerminator
    (LF, CR, LS, PS). *)
Definition isWhiteSpace (c : CodeUnit) : bool :=
  ((c =? 0x0009) || (c =? 0x000B) || (c =? 0x000C) || (c =? 0xFEFF)
   || (c =? 0x0020) || (c =? 0x00A0) || (c =? 0x1680)
   || ((0x2000 <=? c) && (c <=? 0x200A))
   || (c =? 0x202F) || (c =? 0x205F) || (c =? 0x3000)
   || (c =? 0x000A) || (c =? 0x000D) || (c =? 0x2028) || (c =? 0x2029))%N.

Fixpoint dropWhile {A} (p : A -> bool) (l : list A) : list A :=
  match l with
  | [] => []
  | x :: l' => if p x then dropWhile p l' else l
  end.

Definition trim (s : Text) : Text :=
  reverse (dropWhile isWhiteSpace (reverse (dropWhile isWhiteSpace s))).

(** [e.target.valueAsNumber] of a number input: [NaN] when the field does
    not hold a valid number, otherwise a finite double, which is a
    rational. *)
Inductive JsNumber := NaN | Finite (q : Q).

(** The [onChange] of the num-questions input: the value passed to
    [setNumQuestions].  [Math.min], [Math.max] and [Math.floor] are exact on
    finite doubles. *)
Definition numQuestionsOnChange (num : JsNumber) : Z :=
  match num with
  | NaN => 1
  | Finite q => Qfloor (Qmax 1 (Qmin 50 q))
  end.

(** The clamping rule in the words of the specification. *)
Definition clampSpec (num : JsNumber) : Z :=
  match num with
  | NaN => 1
  | Finite q => Z.max 1 (Z.min 50 (Qfloor q))
  end.

Section Form.
(** The browser's [File] objects, and the text [processPdf] resolves to
    ([None] for [null]). *)
Variable File : Type.
Variable processPdf : File -> option Text.

Record State := mkState {
  mode : InputMode;
  text : Text;
  file : option File;
  numQuestions : Z;
  difficulty : Difficulty;
  filter : Text;
  negativeMarking : bool
}.

(** What a call of [handleSubmit] ends in: a validation message passed to
    [setLocalError], a call of [onGenerate], or neither. *)
Inductive Outcome :=
  | LocalError (message : string)
  | OnGenerate (sourceText : Text) (numQuestions : Z) (difficulty : Difficulty)
               (filter : Text) (negativeMarking : bool)
  | NoGeneration.

Definition handleSubmit (s : State) : Outcome :=
  if (numQuestions s <? 1) || (numQuestions s >? 50) then
    LocalError "Please enter a number of questions between 1 and 50."
  else
    match mode s with
    | TextMode =>
        if (length (trim (text s)) <? 100)%nat then
          LocalError "Please enter at least 100 characters of text."
        else
          OnGenerate (text s) (numQuestions s) (difficulty s) (filter s)
                     (negativeMarking s)
    | PdfMode =>
        match file s with
        | None => LocalError "Please select a PDF file."
        | Some f =>
            match processPdf f with
            | Some ((_ :: _) as pdfText) =>
                OnGenerate pdfText (numQuestions s) (difficulty s) (filter s)
                           (negativeMarking s)
            | _ => NoGeneration
            end
        end
    end.

Definition isButtonDisabled (s : State) (isGenerating isPdfProcessing : bool) : bool :=
  if isGenerating || isPdfProcessing then true
  else if (numQuestions s <? 1) || (numQuestions s >? 50) then true
  else if match mode s with TextMode => (length (trim (text s)) <? 100)%nat | _ => false end
  then true
  else if match mode s, file s with PdfMode, None => true | _, _ => false end
  then true
  else false.

(** Whether a submission was rejected with a validation error. *)
Definition rejected (o : Outcome) : bool :=
  match o with LocalError _ => true | _ => false end.

(** Whether a submission invoked generation. *)
Definition generated (o : Outcome) : bool :=
  match o with OnGenerate _ _ _ _ _ => true | _ => false end.
End Form.

(** Sample inputs: one hundred letters; ninety-nine letters followed by a
    space; a form in text mode with the initial settings. *)
Definition hundredLetters : Text := replicate 100 0x61%N.
Definition paddedHundred : Text := replicate 99 0x61%N ++ [0x20%N].

Definition textForm (t : Text) : State Empty_set :=
  {| mode := TextMode; text := t; file := None; numQuestions := 10;
     difficulty := Medium; filter := []; negativeMarking := false |}.

Definition noPdf (f : Empty_set) : option Text := None.

Arguments mkState {File}.
Arguments mode {File}.
Arguments text {File}.
Arguments file {File}.
Arguments numQuestions {File}.
Arguments difficulty {File}.
Arguments filter {File}.
Arguments negativeMarking {File}.
Arguments handleSubmit {File}.
Arguments isButtonDisabled {File}.

End QuizInput.

(** * geminiService: generateQuizFromText *)
Module GeminiService.

(** A value produced by [JSON.parse]. *)
#[local] Unset Elimination Schemes.
Inductive Json :=
  | JNull
  | JBool (b : bool)
  | JNumber (q : Q)
  | JString (s : string)
  | JArray (items : list Json)
  | JObject (members : list (string * Json)).
#[local] Set Elimination Schemes.

(** A thrown value: an [Error] object with its message, or anything else. *)
Inductive Thrown :=
  | ErrorObject (message : string)
  | NotAnError.

(** The own property [name] of an object; [None] is [undefined]. *)
Fixpoint property (name : string) (members : list (string * Json)) : option Json :=
  match members with
  | [] => None
  | (k, v) :: rest => if decide (k = name) then Some v else property name rest
  end.

(** JavaScript truthiness of a property value. *)
Definition truthy (v : option Json) : bool :=
  match v with
  | None => false
  | Some JNull => false
  | Some (JBool b) => b
  | Some (JNumber q) => negb (Qeq_bool q 0)
  | Some (JString s) => negb (bool_decide (s = ""%string))
  | Some (JArray _) => true
  | Some (JObject _) => true
  end.

(** [Array.isArray]. *)
Definition isArray (v : option Json) : bool :=
  match v with
  | Some (JArray _) => true
  | _ => false
  end.

(** The specification's condition: the parsed response has a [questions]
    field that is a sequence. *)
Definition hasQuestionsSequence (quizData : Json) : bool :=
  match quizData with
  | JObject members =>
      match property "questions" members with
      | Some (JArray _) => true
      | _ => false
      end
  | _ => false
  end.

Section Generate.
(** The host's [JSON.parse] and [String.prototype.trim], and the messages
    of the [TypeError]s the engine throws when a property of [null] is
    read and when [trim] is called on [undefined]. *)
Variable JSON_parse : string -> Thrown + Json.
Variable trim : string -> string.
Variable nullReadMessage : string.
Variable undefinedTrimMessage : string.

(** [quizData.questions]: a property read, which throws on [null]; the
    primitives and arrays have no such property. *)
Definition readQuestions (quizData : Json) : Thrown + option Json :=
  match quizData with
  | JNull => inl (ErrorObject nullReadMessage)
  | JObject members => inr (property "questions" members)
  | _ => inr None
  end.

(** The "basic validation" and the [return]. *)
Definition validate (quizData : Json) : Thrown + Json :=
  match readQuestions quizData with
  | inl e => inl e
  | inr qs =>
      if negb (truthy qs) || negb (isArray qs)
      then inl (ErrorObject "Invalid quiz format received from API.")
      else inr quizData
  end.

(** The body of the [try] block from the awaited response on:
    [response] is the rejection of [generateContent] or the [text] of its
    result ([None] for [undefined]). *)
Definition tryBlock (response : Thrown + option string) : Thrown + Json :=
  match response with
  | inl e => inl e
  | inr None => inl (ErrorObject undefinedTrimMessage)
  | inr (Some responseText) =>
      match JSON_parse (trim responseText) with
      | inl e => inl e
      | inr quizData => validate quizData
      end
  end.

(** The [catch] block: what is thrown instead. *)
Definition catchBlock (error : Thrown) : Thrown :=
  match error with
  | ErrorObject message =>
      ErrorObject ("Failed to generate quiz. " ++ message)
  | NotAnError =>
      ErrorObject "An unknown error occurred while generating the quiz."
  end.

Definition generateQuizFromText (response : Thrown + option string)
    : Thrown + Json :=
  match tryBlock response with
  | inl e => inl (catchBlock e)
  | inr quiz => inr quiz
  end.
End Generate.

(** Sample host functions for running the definitions: a parser that
    answers with a fixed value, and the identity for [trim]. *)
Definition parsesTo (quizData : Json) (responseText : string) : Thrown + Json :=
  inr quizData.

Definition emptyQuiz : Json := JObject [("questions"%string, JArray [])].

End GeminiService.

(** * QuizDisplay: the QuestionCard component *)
Module QuestionCard.
Import QuizDisplay.

(** What one option button of a card shows and does. *)
Record Button := mkButton {
  className : string;
  disabled : bool;
  checkIcon : bool;
  xIcon : bool;
  onClick : Event
}.

Definition baseClass : string :=
  "w-full text-left p-3 rounded-md transition-colors duration-200 border border-slate-600 bg-slate-800 hover:bg-slate-700".
Definition correctClass : string :=
  "w-full text-left p-3 rounded-md border border-green-700 bg-green-900/50 text-white".
Definition wrongClass : string :=
  "w-full text-left p-3 rounded-md border border-red-700 bg-red-900/50 text-white".
Definition otherClass : string :=
  "w-full text-left p-3 rounded-md border border-slate-700 bg-slate-800 text-slate-400".
Definition selectedSuffix : string :=
  " bg-indigo-900/70 border-indigo-500 ring-2 ring-indigo-500".

(** The body of [question.options.map((option, i) => ...)]: [userAnswer] is
    [None] for [undefined]. *)
Definition optionButton (question : Question) (questionIndex : nat)
    (userAnswer : option string) (showResult : bool) (option : string) : Button :=
  let isSelected := bool_decide (userAnswer = Some option) in
  let isCorrect := bool_decide (correctAnswer question = option) in
  let buttonClass :=
    if showResult then
      if isCorrect then correctClass
      else if isSelected && negb isCorrect then wrongClass
      else otherClass
    else if isSelected then (baseClass ++ selectedSuffix)%string
    else baseClass in
  {| className := buttonClass;
     disabled := showResult;
     checkIcon := showResult && isCorrect;
     xIcon := showResult && isSelected && negb isCorrect;
     onClick := ClickOption questionIndex option |}.

(** The buttons of one card, in the order of the options. *)
Definition questionCard (question : Question) (questionIndex : nat)
    (userAnswer : option string) (showResult : bool) : list Button :=
  optionButton question questionIndex userAnswer showResult <$> options question.

(** [quiz.questions.map((q, index) => <QuestionCard ... />)]. *)
Definition cards (quiz : Quiz) (s : State) : list (list Button) :=
  imap (λ index q, questionCard q index (userAnswers s !! index) (showResults s))
       (questions quiz).

(** Every recorded answer is one of the options of its question. *)
Definition answersAreOptions (quiz : Quiz) (s : State) : Prop :=
  ∀ index a, userAnswers s !! index = Some a →
    ∃ q, questions quiz !! index = Some q ∧ a ∈ options q.

End QuestionCard.

(** * hooks/usePdfProcessor *)
Module UsePdfProcessor.
Import QuizInput GeminiService.

(** [Array.prototype.join] with separator [sep]. *)
Definition join (sep : Text) (items : list Text) : Text :=
  match items with
  | [] => []
  | first :: rest => first ++ flat_map (λ item, sep ++ item) rest
  end.

Definition space : Text := [0x20%N].
Definition blankLine : Text := [0x0A%N; 0x0A%N].

(** A page is given by the [str] of its text items:
    [textContent.items.map(item => item.str).join(' ')]. *)
Definition pageText (items : list Text) : Text := join space items.

(** The loop over the pages 1 .. numPages:
    [fullText += pageText + '\n\n']. *)
Fixpoint pagesLoop (pages : list (list Text)) (fullText : Text) : Text :=
  match pages with
  | [] => fullText
  | items :: rest => pagesLoop rest (fullText ++ (pageText items ++ blankLine))
  end.

(** The hook's state after a call. *)
Record HookState := mkHookState {
  isProcessing : bool;
  error : option string
}.

Section Processor.
(** The browser's [File] objects, and what pdf.js makes of one: the text
    items of its pages, or the value thrown while loading the document or
    one of its pages. *)
Variable File : Type.
Variable readDocument : File -> Thrown + list (list Text).

(** [processPdf] once its promise has settled: the hook state left behind
    and the resolved value ([None] for [null]).  [libraryLoaded] is whether
    the global [pdfjsLib] is defined. *)
Definition processPdf (libraryLoaded : bool) (file : File)
    : HookState * option Text :=
  if negb libraryLoaded then
    ({| isProcessing := false;
        error := Some "pdf.js library is not loaded."%string |}, None)
  else
    match readDocument file with
    | inr pages =>
        ({| isProcessing := false; error := None |}, Some (pagesLoop pages []))
    | inl (ErrorObject message) =>
        ({| isProcessing := false; error := Some message |}, None)
    | inl NotAnError =>
        ({| isProcessing := false;
            error := Some "An unknown error occurred during PDF processing."%string |},
         None)
    end.

(** The resolved value alone, as [handleSubmit] awaits it. *)
Definition processedText (libraryLoaded : bool) (file : File) : option Text :=
  snd (processPdf libraryLoaded file).
End Processor.

Arguments processPdf {File}.
Arguments processedText {File}.

(** Sample documents for running the definitions: every file is a PDF of
    one page without any text. *)
Definition emptyPage (f : unit) : Thrown + list (list Text) := inr [[]].

Definition pdfForm : State unit :=
  {| mode := PdfMode; text := []; file := Some tt; numQuestions := 10;
     difficulty := Medium; filter := []; negativeMarking := false |}.

End UsePdfProcessor.

(** * QuizInput: the form and its controls *)
Module QuizInputForm.
Import QuizInput.

Section Controls.
Variable File : Type.
(** [file.type], the MIME type the browser reports. *)
Variable fileType : File -> string.
Variable processPdf : File -> option Text.

(** The fields of the form together with [localError]. *)
Record Form := mkForm {
  fields : State File;
  localError : option string
}.

(** The [useState] initial values. *)
Definition initialForm : Form :=
  {| fields := {| mode := TextMode; text := []; file := None;
                  numQuestions := 10; difficulty := Medium; filter := [];
                  negativeMarking := false |};
     localError := None |}.

Definition withFile (s : State File) (f : option File) : State File :=
  {| mode := mode s; text := text s; file := f;
     numQuestions := numQuestions s; difficulty := difficulty s;
     filter := filter s; negativeMarking := negativeMarking s |}.

(** [handleFileChange]: [selectedFile] is [e.target.files?.[0]]. *)
Definition handleFileChange (selectedFile : option File) (s : Form) : Form :=
  match selectedFile with
  | None => s
  | Some f =>
      if bool_decide (fileType f ≠ "application/pdf"%string) then
        {| fields := withFile (fields s) None;
           localError := Some "Please upload a PDF file."%string |}
      else
        {| fields := withFile (fields s) (Some f); localError := None |}
  end.

(** What [handleSubmit] leaves in [localError]: it is cleared first and set
    again when the submission is rejected. *)
Definition submitError (o : Outcome) : option string :=
  match o with
  | LocalError message => Some message
  | _ => None
  end.

(** The controls of the form. *)
Inductive FormEvent :=
  | ClickTab (m : InputMode)
  | TypeText (t : Text)
  | ChooseFile (selectedFile : option File)
  | ChangeNumQuestions (num : JsNumber)
  | ClickDifficulty (level : Difficulty)
  | TypeFilter (t : Text)
  | ToggleNegativeMarking
  | ClickGenerate.

(** One interaction with the form while nothing is loading (the form is
    replaced by the loader otherwise).  The "Generate Quiz" button does
    nothing while it is disabled. *)
Definition formStep (s : Form) (e : FormEvent) : Form :=
  let f := fields s in
  match e with
  | ClickTab m =>
      {| fields := {| mode := m; text := text f; file := file f;
                      numQuestions := numQuestions f; difficulty := difficulty f;
                      filter := filter f; negativeMarking := negativeMarking f |};
         localError := localError s |}
  | TypeText t =>
      {| fields := {| mode := mode f; text := t; file := file f;
                      numQuestions := numQuestions f; difficulty := difficulty f;
                      filter := filter f; negativeMarking := negativeMarking f |};
         localError := localError s |}
  | ChooseFile selectedFile => handleFileChange selectedFile s
  | ChangeNumQuestions num =>
      {| fields := {| mode := mode f; text := text f; file := file f;
                      numQuestions := numQuestionsOnChange num;
                      difficulty := difficulty f;
                      filter := filter f; negativeMarking := negativeMarking f |};
         localError := localError s |}
  | ClickDifficulty level =>
      {| fields := {| mode := mode f; text := text f; file := file f;
                      numQuestions := numQuestions f; difficulty := level;
                      filter := filter f; negativeMarking := negativeMarking f |};
         localError := localError s |}
  | TypeFilter t =>
      {| fields := {| mode := mode f; text := text f; file := file f;
                      numQuestions := numQuestions f; difficulty := difficulty f;
                      filter := t; negativeMarking := negativeMarking f |};
         localError := localError s |}
  | ToggleNegativeMarking =>
      {| fields := {| mode := mode f; text := text f; file := file f;
                      numQuestions := numQuestions f; difficulty := difficulty f;
                      filter := filter f;
                      negativeMarking := negb (negativeMarking f) |};
         localError := localError s |}
  | ClickGenerate =>
      if isButtonDisabled f false false then s
      else {| fields := f;
              localError := submitError (handleSubmit processPdf f) |}
  end.

Definition runForm (events : list FormEvent) : Form :=
  fold_left formStep events initialForm.

(** What every interaction keeps: the question count is in 1..50, a stored
    file is a PDF, and [localError] is empty or the file-type message. *)
Definition formInvariant (s : Form) : Prop :=
  1 <= numQuestions (fields s) <= 50 ∧
  (∀ f, file (fields s) = Some f → fileType f = "application/pdf"%string) ∧
  (localError s = None ∨ localError s = Some "Please upload a PDF file."%string).
End Controls.

Arguments mkForm {File}.
Arguments fields {File}.
Arguments localError {File}.
Arguments initialForm {File}.
Arguments handleFileChange {File}.
Arguments formStep {File}.
Arguments runForm {File}.
Arguments formInvariant {File}.
Arguments ClickTab {File}.
Arguments TypeText {File}.
Arguments ChooseFile {File}.
Arguments ChangeNumQuestions {File}.
Arguments ClickDifficulty {File}.
Arguments TypeFilter {File}.
Arguments ToggleNegativeMarking {File}.
Arguments ClickGenerate {File}.

End QuizInputForm.

(** * App: the component state *)
Module AppState.
Import App GeminiService.

(** [quiz] holds the [questions] array of the quiz object (a JavaScript
    array, see [App.get]), the only member of the object that [App] and
    [QuizDisplay] read; its elements are whatever the service returned.
    [error] is [None] for [null]. *)
Record State := mkState {
  quiz : option (list (option Json));
  isLoading : bool;
  error : option string;
  negativeMarking : bool
}.

Definition initial : State :=
  {| quiz := None; isLoading := false; error := None; negativeMarking := false |}.

(** [handleGenerateQuiz] up to its [await]. *)
Definition generateStart (negMarking : bool) (s : State) : State :=
  {| quiz := None; isLoading := true; error := None;
     negativeMarking := negMarking |}.

(** The [questions] array of a value returned by [generateQuizFromText]:
    the service returns only objects whose [questions] member is an array
    and checks nothing about the elements. *)
Definition questionsOf (quizData : Json) : option (list Json) :=
  match quizData with
  | JObject members =>
      match property "questions" members with
      | Some (JArray items) => Some items
      | _ => None
      end
  | _ => None
  end.

(** [handleGenerateQuiz] from the settled promise on: [outcome] is what
    [generateQuizFromText] threw, or the [questions] array of the object
    it returned.  An object and an array are truthy, so the guard
    [generatedQuiz && generatedQuiz.questions] holds and the array is
    shuffled. *)
Definition generateSettle (random : nat -> UnitDouble)
    (outcome : Thrown + list Json) (s : State) : State :=
  match outcome with
  | inr generatedQuestions =>
      {| quiz := Some (shuffleArray random (Some <$> generatedQuestions));
         isLoading := false; error := error s;
         negativeMarking := negativeMarking s |}
  | inl (ErrorObject message) =>
      {| quiz := quiz s; isLoading := false; error := Some message;
         negativeMarking := negativeMarking s |}
  | inl NotAnError =>
      {| quiz := quiz s; isLoading := false;
         error := Some "An unexpected error occurred."%string;
         negativeMarking := negativeMarking s |}
  end.

Definition handleGenerateQuiz (random : nat -> UnitDouble)
    (outcome : Thrown + list Json) (negMarking : bool) (s : State) : State :=
  generateSettle random outcome (generateStart negMarking s).

Definition handleReset (s : State) : State :=
  {| quiz := None; isLoading := false; error := None;
     negativeMarking := negativeMarking s |}.

(** JavaScript truthiness of [error]. *)
Definition shown (error : option string) : option string :=
  match error with
  | Some message => if bool_decide (message = ""%string) then None else Some message
  | None => None
  end.

(** What [main] renders: the input form (with the error banner, if any, and
    the generating flag), the [QuizDisplay] element with the questions
    array of its [quiz] prop and its [negativeMarking] prop, or nothing. *)
Inductive View :=
  | InputForm (banner : option string) (isGenerating : bool)
  | Display (questions : list (option Json)) (negMarking : bool)
  | Blank.

Definition view (s : State) : View :=
  match quiz s with
  | None => InputForm (shown (error s)) (isLoading s)
  | Some qs =>
      match shown (error s) with
      | None => Display qs (negativeMarking s)
      | Some _ => Blank
      end
  end.

(** A sample response of the service with two elements, one of them not
    a question. *)
Definition sampleResponse : Json :=
  JObject [("questions"%string,
            JArray [JObject [("questionText"%string, JString "q")]; JNull])].

End AppState.

(** * QuizDisplay within App: mounting and unmounting *)
Module QuizLifecycle.
Import QuizDisplay.

(** Everything the user can click in [QuizDisplay]: the controls of
    [Event], and the "Create Another Quiz" button of the results block.
    That button calls the [onReset] prop, which is [handleReset] of [App]:
    it sets the quiz to [null], so [App] no longer renders the component
    and its state is discarded. *)
Inductive Control :=
  | Interact (e : Event)
  | CreateAnotherQuiz.

(** One click on the mounted component ([None] once it is unmounted).
    "Create Another Quiz" is rendered only in the results block. *)
Definition click (quiz : Quiz) (mounted : option State) (c : Control)
    : option State :=
  match mounted with
  | None => None
  | Some s =>
      match c with
      | Interact e => Some (dispatch quiz s e)
      | CreateAnotherQuiz => if showResults s then None else Some s
      end
  end.

Definition clicks (quiz : Quiz) (mounted : option State)
    (controls : list Control) : option State :=
  fold_left (click quiz) controls mounted.

End QuizLifecycle.

(** * Properties of the quiz session *)
Module QuizDisplayFacts.
Import QuizDisplay.

Section Scoring.
Variable quiz : Quiz.
Variable answers : gmap nat string.

Lemma tallyOver_cons v index indices :
  tallyOver v quiz answers (index :: indices) =
  ((if decide (verdictAt quiz answers index = Some v) then 1 else 0)
   + tallyOver v quiz answers indices)%nat.
Proof.
  unfold tallyOver. rewrite filter_cons.
  destruct (decide (verdictAt quiz answers index = Some v)); reflexivity.
Qed.

Lemma verdictAt_question index q :
  questions quiz !! index = Some q →
  verdictAt quiz answers index = Some (classify q (answers !! index)).
Proof. intros Hq. unfold verdictAt. rewrite Hq. reflexivity. Qed.

(** One step of the callback moves exactly the counter of the verdict. *)
Lemma scoreCallback_verdict correct incorrect index q :
  questions quiz !! index = Some q →
  scoreCallback quiz answers (correct, incorrect) index =
  Some (match classify q (answers !! index) with
        | Unanswered => (correct, incorrect)
        | Correct => (correct + 1, incorrect)
        | Incorrect => (correct, incorrect + 1)
        end).
Proof.
  intros Hq. unfold scoreCallback, classify. rewrite Hq.
  destruct (answers !! index) as [a|]; [|reflexivity].
  destruct (decide (a = correctAnswer q)); reflexivity.
Qed.

(** The loop never throws on indices of the array, and it adds to the two
    counters the tallies of the verdicts it met. *)
Lemma forEachIndex_tally len start correct incorrect :
  (start + len <= length (questions quiz))%nat →
  forEachIndex (scoreCallback quiz answers) (seq start len) (correct, incorrect) =
  Some (correct + Z.of_nat (tallyOver Correct quiz answers (seq start len)),
        incorrect + Z.of_nat (tallyOver Incorrect quiz answers (seq start len))).
Proof.
  revert start correct incorrect.
  induction len as [|len IH]; intros start correct incorrect Hlen;
    cbn [seq forEachIndex].
  - unfold tallyOver; simpl. f_equal. f_equal; lia.
  - destruct (lookup_lt_is_Some_2 (questions quiz) start) as [q Hq]; [lia|].
    rewrite (scoreCallback_verdict _ _ _ _ Hq).
    rewrite !tallyOver_cons, (verdictAt_question _ _ Hq).
    destruct (classify q (answers !! start)); rewrite IH by lia;
      repeat case_decide; try congruence; f_equal; f_equal; lia.
Qed.

(** The three verdicts partition any list of question indices. *)
Lemma tallyOver_partition indices :
  Forall (λ index, (index < length (questions quiz))%nat) indices →
  (tallyOver Unanswered quiz answers indices
   + tallyOver Correct quiz answers indices
   + tallyOver Incorrect quiz answers indices = length indices)%nat.
Proof.
  induction 1 as [|index indices Hlt _ IH]; [reflexivity|].
  rewrite !tallyOver_cons. simpl.
  destruct (lookup_lt_is_Some_2 (questions quiz) index Hlt) as [q Hq].
  rewrite (verdictAt_question _ _ Hq).
  destruct (classify q (answers !! index));
    repeat case_decide; try congruence; lia.
Qed.

Lemma tally_partition :
  (tally Unanswered quiz answers + tally Correct quiz answers
   + tally Incorrect quiz answers = length (questions quiz))%nat.
Proof.
  unfold tally. rewrite tallyOver_partition.
  - apply length_seq.
  - apply Forall_forall. intros index Hin.
    apply elem_of_seq in Hin. lia.
Qed.

(** The score computed once the results are shown, in closed form. *)
Lemma scoreMemo_results negativeMarking :
  scoreMemo quiz answers true negativeMarking =
  Some {| score :=
            if negativeMarking
            then Z.of_nat (tally Correct quiz answers)
                 - Z.of_nat (tally Incorrect quiz answers)
            else Z.of_nat (tally Correct quiz answers);
          correctCount := Z.of_nat (tally Correct quiz answers);
          incorrectCount := Z.of_nat (tally Incorrect quiz answers);
          unansweredCount := Z.of_nat (tally Unanswered quiz answers) |}.
Proof.
  unfold scoreMemo. simpl.
  rewrite forEachIndex_tally by (simpl; lia).
  pose proof tally_partition as Hsum. fold (tally Correct quiz answers).
  fold (tally Incorrect quiz answers). simpl. f_equal. f_equal; lia.
Qed.
End Scoring.

(** ** Scoring *)

(** C1. Once the results are shown the final score is [correctCount] without
    negative marking and [correctCount - incorrectCount] with it, where the
    two counts are the numbers of correctly and incorrectly answered
    questions; with negative marking the score can be negative. *)
Theorem final_score_rule :
  (∀ quiz answers negativeMarking, ∃ r,
      scoreMemo quiz answers true negativeMarking = Some r ∧
      correctCount r = Z.of_nat (tally Correct quiz answers) ∧
      incorrectCount r = Z.of_nat (tally Incorrect quiz answers) ∧
      score r = if negativeMarking
                then correctCount r - incorrectCount r
                else correctCount r) ∧
  (∃ answers r,
      scoreMemo sampleQuiz answers true true = Some r ∧ score r = -2).
Proof.
  split.
  - intros quiz answers negativeMarking. eexists.
    split; [apply scoreMemo_results|]. simpl.
    destruct negativeMarking; auto.
  - exists {[ 0%nat := "b"%string; 1%nat := "a"%string ]}. eexists.
    split; [vm_compute; reflexivity|]. reflexivity.
Qed.

(** C2. Once the results are shown, the three counts are the numbers of
    question indices classified correct, incorrect and unanswered, and
    they add up to the number of questions. *)
Theorem counts_partition_questions quiz answers negativeMarking :
  ∃ r, scoreMemo quiz answers true negativeMarking = Some r ∧
       correctCount r = Z.of_nat (tally Correct quiz answers) ∧
       incorrectCount r = Z.of_nat (tally Incorrect quiz answers) ∧
       unansweredCount r = Z.of_nat (tally Unanswered quiz answers) ∧
       correctCount r + incorrectCount r + unansweredCount r
       = Z.of_nat (length (questions quiz)).
Proof.
  eexists. split; [apply scoreMemo_results|]. simpl.
  pose proof (tally_partition quiz answers). repeat split; lia.
Qed.

(** C7. The negative-marking flag does not reach the three counts: with
    the flag on and off the computation returns the same [correctCount],
    [incorrectCount] and [unansweredCount], before and after the results
    are shown. *)
Theorem negative_marking_frame quiz answers showRes :
  ∃ on off,
    scoreMemo quiz answers showRes true = Some on ∧
    scoreMemo quiz answers showRes false = Some off ∧
    correctCount on = correctCount off ∧
    incorrectCount on = incorrectCount off ∧
    unansweredCount on = unansweredCount off.
Proof.
  destruct showRes.
  - do 2 eexists. split; [apply scoreMemo_results|].
    split; [apply scoreMemo_results|]. simpl. auto.
  - do 2 eexists. repeat split; reflexivity.
Qed.

(** ** The session *)

Lemma run_snoc quiz events e :
  run quiz (events ++ [e]) = dispatch quiz (run quiz events) e.
Proof. unfold run. rewrite fold_left_app. reflexivity. Qed.

(** What one interaction does to the answer map: nothing, or it records an
    option of a question of the quiz at that question's index. *)
Lemma dispatch_answers quiz s e :
  userAnswers (dispatch quiz s e) = userAnswers s ∨
  ∃ index option q,
    e = ClickOption index option ∧
    questions quiz !! index = Some q ∧ option ∈ options q ∧
    userAnswers (dispatch quiz s e) = <[index := option]> (userAnswers s).
Proof.
  unfold dispatch. destruct (rendered quiz s e) eqn:Hr; [|by left].
  destruct e as [index option| | |]; simpl in *.
  - destruct (questions quiz !! index) as [q|] eqn:Hq; [|discriminate].
    apply andb_prop in Hr as [Hopt Hshow].
    apply bool_decide_eq_true in Hopt. apply negb_true_iff in Hshow.
    right. exists index, option, q. unfold handleAnswerSelect.
    rewrite Hshow. auto.
  - left. unfold handleSubmitClick. case_match; reflexivity.
  - by left.
  - by left.
Qed.

Lemma dispatch_inRange quiz s e :
  inRange quiz s → inRange quiz (dispatch quiz s e).
Proof.
  intros Hs index.
  destruct (dispatch_answers quiz s e)
    as [->|(index' & option & q & _ & Hq & _ & ->)]; [apply Hs|].
  destruct (decide (index' = index)) as [->|Hne].
  - intros _. eapply lookup_lt_Some, Hq.
  - rewrite lookup_insert_ne by done. apply Hs.
Qed.

Lemma run_inRange quiz events : inRange quiz (run quiz events).
Proof.
  induction events as [|e events IH] using rev_ind.
  - intros index [x Hx]. vm_compute in Hx. discriminate.
  - rewrite run_snoc. by apply dispatch_inRange.
Qed.

(** With keys in range, the number of keys reaches the number of questions
    exactly when every question has an answer. *)
Lemma inRange_size quiz s :
  inRange quiz s →
  (length (questions quiz) <= size (userAnswers s))%nat ↔
  allAnswered quiz (userAnswers s).
Proof.
  intros Hs.
  assert (Hsub : dom (userAnswers s) ⊆ set_seq (C:=gset nat) 0 (length (questions quiz))).
  { intros index Hin. apply elem_of_dom in Hin.
    apply elem_of_set_seq. split; [lia|]. simpl. by apply Hs. }
  rewrite <-size_dom. split.
  - intros Hsize index Hlt. apply elem_of_dom.
    rewrite (set_subseteq_size_eq _ _ Hsub).
    + apply elem_of_set_seq. lia.
    + by rewrite size_set_seq.
  - intros Hall.
    rewrite <-(size_set_seq (C:=gset nat) 0 (length (questions quiz))).
    apply subseteq_size. intros index Hin.
    apply elem_of_set_seq in Hin. apply elem_of_dom, Hall. lia.
Qed.

(** C3, as the code has it. Selecting an answer is guarded by [showResults]
    alone: in the Results phase the handler changes nothing; in the
    Answering phase and also in the ConfirmPending phase it records the
    option at the index, replacing any earlier answer, and leaves the phase
    as it was. *)
Theorem select_answer_guard s index option :
  match phase s with
  | Results => handleAnswerSelect s index option = s
  | Answering | ConfirmPending =>
      userAnswers (handleAnswerSelect s index option)
      = <[index := option]> (userAnswers s) ∧
      userAnswers (handleAnswerSelect s index option) !! index = Some option ∧
      phase (handleAnswerSelect s index option) = phase s
  end.
Proof.
  unfold phase, handleAnswerSelect.
  destruct (showResults s) eqn:Hshow; [reflexivity|].
  destruct (isConfirmModalOpen s) eqn:Hmodal; simpl;
    rewrite ?Hshow, ?Hmodal, lookup_insert_eq; auto.
Qed.

(** C3 fails as stated: after "Check Answers" on an unanswered quiz the
    session is in ConfirmPending, and selecting an answer there changes the
    answer map. *)
Lemma select_answer_confirm_pending_counterexample :
  let s := run sampleQuiz [ClickCheckAnswers] in
  phase s = ConfirmPending ∧
  userAnswers (handleAnswerSelect s 0 "a") ≠ userAnswers s.
Proof.
  split; [vm_compute; reflexivity|].
  intros Heq. apply (f_equal (λ m : gmap nat string, m !! 0%nat)) in Heq.
  vm_compute in Heq. discriminate.
Qed.

(** C4. In every state a session can reach: from Answering, "Check
    Answers" keeps the answers and goes to Results when every question has
    an answer and to ConfirmPending otherwise; from ConfirmPending, the
    modal's "Submit" goes to Results and its "Cancel" goes back to
    Answering with the answers unchanged. *)
Theorem submit_confirm_cancel_flow quiz events :
  let s := run quiz events in
  match phase s with
  | Answering =>
      userAnswers (handleSubmitClick quiz s) = userAnswers s ∧
      (allAnswered quiz (userAnswers s) ∧
         phase (handleSubmitClick quiz s) = Results
       ∨ ¬ allAnswered quiz (userAnswers s) ∧
         phase (handleSubmitClick quiz s) = ConfirmPending)
  | ConfirmPending =>
      phase (handleConfirmSubmit s) = Results ∧
      userAnswers (handleConfirmSubmit s) = userAnswers s ∧
      phase (handleCancel s) = Answering ∧
      userAnswers (handleCancel s) = userAnswers s
  | Results => True
  end.
Proof.
  intros s. pose proof (inRange_size quiz s (run_inRange quiz events)) as Hsize.
  unfold phase at 1.
  destruct (showResults s) eqn:Hshow; [exact I|].
  destruct (isConfirmModalOpen s) eqn:Hmodal.
  - unfold phase, handleConfirmSubmit, handleCancel. simpl.
    rewrite Hshow. auto.
  - unfold handleSubmitClick, phase.
    destruct (Nat.ltb_spec (size (userAnswers s)) (length (questions quiz)))
      as [Hlt|Hge]; simpl; rewrite ?Hshow; (split; [reflexivity|]).
    + right. split; [|reflexivity]. rewrite <-Hsize. lia.
    + left. split; [|reflexivity]. by apply Hsize.
Qed.

(** C10. Throughout a session every key of the answer map is a question
    index: an interaction either leaves the map alone or records an option
    of a question at that question's own index; and the unanswered count
    that the score computation returns is never negative. *)
Theorem answers_stay_in_range quiz events :
  let s := run quiz events in
  (∀ index, index ∈ dom (userAnswers s) →
            (index < length (questions quiz))%nat) ∧
  (∀ e, userAnswers (dispatch quiz s e) = userAnswers s ∨
        ∃ index option q,
          e = ClickOption index option ∧
          questions quiz !! index = Some q ∧ option ∈ options q ∧
          userAnswers (dispatch quiz s e)
          = <[index := option]> (userAnswers s)) ∧
  (∀ negativeMarking, ∃ r,
      scoreMemo quiz (userAnswers s) (showResults s) negativeMarking = Some r ∧
      0 <= unansweredCount r).
Proof.
  intros s. split; [|split].
  - intros index Hin. apply elem_of_dom in Hin.
    by apply (run_inRange quiz events).
  - apply dispatch_answers.
  - intros negativeMarking. destruct (showResults s).
    + eexists. split; [apply scoreMemo_results|]. simpl. lia.
    + eexists. split; [reflexivity|]. simpl. lia.
Qed.

(** The specification's scenario, run through the handlers. *)
Example scenario_flow :
  phase (run sampleQuiz (take 3 sampleEvents)) = ConfirmPending ∧
  phase (run sampleQuiz sampleEvents) = Results.
Proof. split; vm_compute; reflexivity. Qed.

Example scenario_score_plain :
  scoreMemo sampleQuiz (userAnswers (run sampleQuiz sampleEvents)) true false
  = Some (mkScore 1 1 1 1).
Proof. vm_compute. reflexivity. Qed.

Example scenario_score_negative_marking :
  scoreMemo sampleQuiz (userAnswers (run sampleQuiz sampleEvents)) true true
  = Some (mkScore 0 1 1 1).
Proof. vm_compute. reflexivity. Qed.

End QuizDisplayFacts.

(** * Properties of shuffleArray *)
Module AppFacts.
Import App.

(** ** The double product *)

Lemma pow2_pos (a : Z) : 0 <= a → 0 < 2 ^ a.
Proof. intros. apply Z.pow_pos_nonneg; lia. Qed.

Lemma pow2_split (a b : Z) : 0 <= a → 0 <= b → 2 ^ (a + b) = 2 ^ a * 2 ^ b.
Proof. intros. apply Z.pow_add_r; assumption. Qed.

(** Rounding moves the quotient by at most one half and never below its
    integer part. *)
Lemma roundShift_near (N s : Z) :
  0 <= N → 0 < s →
  N / 2 ^ s <= roundShift N s ∧
  2 * (roundShift N s * 2 ^ s) <= 2 * N + 2 ^ s ∧
  2 * N <= 2 * (roundShift N s * 2 ^ s) + 2 ^ s.
Proof.
  intros HN Hs. unfold roundShift.
  rewrite (proj2 (Z.leb_gt _ _)) by lia.
  pose proof (pow2_pos s ltac:(lia)) as Hpos.
  pose proof (Z.div_mod N (2 ^ s) ltac:(lia)) as Hdm.
  pose proof (Z.mod_pos_bound N (2 ^ s) Hpos) as Hrest.
  assert (Hhalf : 2 ^ s = 2 * 2 ^ (s - 1)).
  { replace s with (1 + (s - 1)) at 1 by lia.
    rewrite pow2_split by lia. reflexivity. }
  set (q := N / 2 ^ s) in *. set (rest := N mod 2 ^ s) in *.
  set (half := 2 ^ (s - 1)) in *. set (P := 2 ^ s) in *.
  destruct (Z.ltb_spec rest half); [nia|].
  destruct (Z.ltb_spec half rest); [nia|].
  destruct (Z.even q); nia.
Qed.

(** The floor of the double product is the floor of [V / 2^scale] for a
    [V] within relative distance [2^-53] of the exact numerator; below
    [2^53] the rounding never goes under an integer the exact product has
    reached. *)
Lemma floorOfProduct_rounded (d : UnitDouble) (n : Z) :
  0 < significand d * n → 53 <= scale d <= 1074 →
  ∃ V, floorOfProduct d n = V / 2 ^ scale d ∧
       (V - significand d * n) * 2 ^ 53 <= significand d * n ∧
       (significand d * n - V) * 2 ^ 53 <= significand d * n ∧
       (significand d * n < 2 ^ (scale d + 53) →
        significand d * n / 2 ^ scale d * 2 ^ scale d <= V).
Proof.
  intros HN Hp. unfold floorOfProduct.
  set (N := significand d * n) in *. set (p := scale d) in *.
  rewrite (proj2 (Z.leb_gt _ _)) by lia.
  pose proof (Z.log2_spec N HN) as Hlog.
  pose proof (Z.log2_nonneg N) as HL.
  set (L := Z.log2 N) in *.
  set (E := Z.max (L - p) (-1022) - 52).
  pose proof (pow2_pos p ltac:(lia)) as Hpp.
  pose proof (Z.mul_div_le N (2 ^ p) Hpp) as Hfloor.
  destruct (Z.le_gt_cases (p + E) 0) as [Hs|Hs].
  - (* the product is a multiple of the unit in the last place *)
    exists N. unfold roundShift. rewrite (proj2 (Z.leb_le (p + E) 0)) by lia.
    assert (HE : E < 0) by lia.
    rewrite (proj2 (Z.leb_gt 0 E)) by lia.
    replace (- E) with (p + - (p + E)) by lia.
    rewrite pow2_split by lia.
    pose proof (pow2_pos (- (p + E)) ltac:(lia)).
    rewrite Z.div_mul_cancel_r by lia.
    repeat split; lia.
  - assert (HEeq : E = L - p - 52) by (unfold E; lia).
    set (s := p + E) in *.
    assert (Hsl : s + 52 = L) by lia.
    pose proof (roundShift_near N s ltac:(lia) Hs) as (Hq & Hup & Hdown).
    set (k := roundShift N s) in *.
    pose proof (pow2_pos s ltac:(lia)) as Hps.
    assert (Hulp : 2 ^ s * 2 ^ 52 <= N).
    { rewrite <-pow2_split by lia. rewrite Hsl. lia. }
    exists (k * 2 ^ s). split; [|split; [|split]].
    + destruct (Z.leb_spec 0 E) as [HE|HE].
      * assert (H2s : 2 ^ s = 2 ^ E * 2 ^ p)
          by (rewrite <-pow2_split by lia; f_equal; lia).
        rewrite H2s, Z.mul_assoc, Z.div_mul by lia. reflexivity.
      * assert (H2p : 2 ^ p = 2 ^ s * 2 ^ (- E))
          by (rewrite <-pow2_split by lia; f_equal; lia).
        pose proof (pow2_pos (- E) ltac:(lia)).
        rewrite H2p, (Z.mul_comm k), Z.div_mul_cancel_l by lia.
        reflexivity.
    + nia.
    + nia.
    + intros Hsmall.
      assert (HLp : L < p + 53) by (apply Z.log2_lt_pow2; assumption).
      set (F := N / 2 ^ p) in *.
      assert (Hps' : 2 ^ p = 2 ^ (p - s) * 2 ^ s).
      { rewrite <-pow2_split by lia. f_equal. lia. }
      assert (HFq : F * 2 ^ (p - s) <= N / 2 ^ s).
      { apply Z.div_le_lower_bound; [assumption|]. rewrite Hps' in Hfloor. lia. }
      rewrite Hps'. pose proof (pow2_pos (p - s) ltac:(lia)). nia.
Qed.

(** For a double in [[0, 1)] the floor of the product with [n] is
    below [n], also when the product rounds up. *)
Lemma floorOfProduct_range (d : UnitDouble) (n : Z) :
  inUnit d → 1 <= n → 0 <= floorOfProduct d n <= n - 1.
Proof.
  intros [HM Hp] Hn.
  destruct (Z.le_gt_cases (significand d * n) 0) as [HN|HN].
  - unfold floorOfProduct. rewrite (proj2 (Z.leb_le _ _)) by assumption. lia.
  - destruct (floorOfProduct_rounded d n HN Hp) as (V & -> & Hup & Hdown & _).
    set (N := significand d * n) in *. set (p := scale d) in *.
    pose proof (pow2_pos p ltac:(lia)) as Hpp.
    assert (H2p : 2 ^ p = 2 ^ 53 * 2 ^ (p - 53))
      by (rewrite <-pow2_split by lia; f_equal; lia).
    pose proof (pow2_pos (p - 53) ltac:(lia)) as Hrest.
    assert (HNn : N <= (2 ^ 53 - 1) * n) by (unfold N; nia).
    split.
    + apply Z.div_pos; [|assumption]. nia.
    + cut (V / 2 ^ p < n); [lia|].
      apply Z.div_lt_upper_bound; [assumption|]. rewrite H2p.
      set (R := 2 ^ (p - 53)) in *. nia.
Qed.

(** It is the floor of the exact product, or one more when the double
    product rounds up to the next integer. *)
Lemma floorOfProduct_exact_or_next (d : UnitDouble) (n : Z) :
  inUnit d → 1 <= n <= 2 ^ 53 →
  significand d * n / 2 ^ scale d <= floorOfProduct d n
  <= significand d * n / 2 ^ scale d + 1.
Proof.
  intros [HM Hp] Hn.
  pose proof (pow2_pos (scale d) ltac:(lia)) as Hpp.
  destruct (Z.le_gt_cases (significand d * n) 0) as [HN|HN].
  - unfold floorOfProduct. rewrite (proj2 (Z.leb_le _ _)) by assumption.
    assert (significand d * n = 0) as -> by nia.
    rewrite Z.div_0_l by lia. lia.
  - destruct (floorOfProduct_rounded d n HN Hp) as (V & -> & Hup & Hdown & Hlow).
    set (N := significand d * n) in *. set (p := scale d) in *.
    assert (H2p : 2 ^ (p + 53) = 2 ^ p * 2 ^ 53) by (apply pow2_split; lia).
    assert (Hsmall : N < 2 ^ (p + 53)).
    { rewrite H2p. assert (N < 2 ^ 53 * n) by (unfold N; nia).
      assert (2 ^ 53 <= 2 ^ p) by (apply Z.pow_le_mono_r; lia). nia. }
    specialize (Hlow Hsmall).
    pose proof (Z.mul_div_le N (2 ^ p) Hpp) as Hfloor.
    pose proof (Z.mul_succ_div_gt N (2 ^ p) Hpp) as Hceil.
    set (F := N / 2 ^ p) in *. split.
    + apply Z.div_le_lower_bound; [assumption|]. lia.
    + cut (V / 2 ^ p < F + 2); [lia|].
      apply Z.div_lt_upper_bound; [assumption|]. rewrite H2p in Hsmall. nia.
Qed.

(** Every index below [n] is the floor of the product of [n] with some
    double in [[0, 1)]. *)
Lemma drawFor_spec (j n : Z) :
  0 <= j < n → n <= 2 ^ 32 →
  inUnit (drawFor j n) ∧ floorOfProduct (drawFor j n) n = j.
Proof.
  intros Hj Hn. unfold drawFor.
  set (c := (2 * j + 1) * 2 ^ 52).
  assert (Hn0 : 0 < n) by lia.
  pose proof (Z.mul_div_le c n Hn0) as Hlo.
  pose proof (Z.mul_succ_div_gt c n Hn0) as Hhi.
  set (m := c / n) in *.
  assert (Hm : 0 <= m) by (apply Z.div_pos; unfold c; lia).
  assert (Hunit : inUnit {| significand := m + 1; scale := 53 |}).
  { split; simpl; [|lia]. split; [lia|].
    assert (Hnm : n * m <= n * (2 ^ 53 - 2 ^ 20)) by (unfold c in Hlo; lia).
    apply Z.mul_le_mono_pos_l in Hnm; lia. }
  split; [exact Hunit|].
  assert (HN : 0 < (m + 1) * n) by nia.
  destruct (floorOfProduct_rounded {| significand := m + 1; scale := 53 |} n HN
              ltac:(simpl; lia)) as (V & -> & Hup & Hdown & _).
  simpl in *. set (N := (m + 1) * n) in *.
  assert (HNc : c < N <= c + n) by (unfold N; lia).
  unfold c in HNc.
  assert (Hbig : N < 2 ^ 33 * 2 ^ 53) by lia.
  assert (Herr1 : V - N < 2 ^ 33) by lia.
  assert (Herr2 : N - V < 2 ^ 33) by lia.
  symmetry. apply Z.div_unique with (V - j * 2 ^ 53).
  - left. lia.
  - lia.
Qed.

(** The values the source computes where the exact product and the double
    product differ: [0.3333333333333333 * 3] and [0.5714285714285714 * 7]
    round up to [1.0] and [4.0]. *)
Example randomIndex_rounds_up :
  randomIndex (mkUnitDouble 6004799503160661 54) 2 = 1%nat ∧
  randomIndex (mkUnitDouble 5146971002709138 53) 6 = 4%nat ∧
  randomIndex (mkUnitDouble (2 ^ 53 - 1) 53) 2 = 2%nat ∧
  randomIndex (mkUnitDouble 1 1074) 2 = 0%nat.
Proof. vm_compute. repeat split. Qed.

(** ** The shuffle *)

Section Shuffle.
Context {A : Type}.
Implicit Types (l : list A) (array : list (option A)).
Implicit Types (random : nat -> UnitDouble).

(** A value of [Math.random()] gives an index in [[0, i]]. *)
Lemma randomIndex_le (r : UnitDouble) (i : nat) :
  inUnit r → (randomIndex r i <= i)%nat.
Proof.
  intros Hr. unfold randomIndex.
  pose proof (floorOfProduct_range r (Z.of_nat i + 1) Hr ltac:(lia)). lia.
Qed.

(** Exchanging two elements gives a permutation of the same length. *)
Lemma insert_head_Permutation l j x y :
  l !! j = Some y → y :: <[j := x]> l ≡ₚ x :: l.
Proof.
  revert j. induction l as [|z l IH]; intros [|j] Hj; simplify_eq/=.
  - apply perm_swap.
  - rewrite (perm_swap z y), (IH _ Hj). apply perm_swap.
Qed.

Lemma exchange_Permutation l i j : exchange l i j ≡ₚ l.
Proof.
  unfold exchange.
  destruct (l !! i) as [x|] eqn:Hi; [|reflexivity].
  destruct (l !! j) as [y|] eqn:Hj; [|reflexivity].
  revert i j Hi Hj. induction l as [|z l IH]; intros [|i] [|j] Hi Hj;
    simplify_eq/=.
  - reflexivity.
  - by apply insert_head_Permutation.
  - by apply insert_head_Permutation.
  - by rewrite IH.
Qed.

Lemma exchange_length l i j : length (exchange l i j) = length l.
Proof. apply Permutation_length, exchange_Permutation. Qed.

Lemma fisherYatesFrom_Permutation draw i l : fisherYatesFrom draw i l ≡ₚ l.
Proof.
  revert l. induction i as [|i IH]; intros l; simpl; [reflexivity|].
  by rewrite IH, exchange_Permutation.
Qed.

(** Inside the array, the source's swap of two slots is the exchange of
    the two elements. *)
Lemma get_defined l i : get (Some <$> l) i = l !! i.
Proof.
  unfold get. rewrite list_lookup_fmap.
  destruct (l !! i); reflexivity.
Qed.

Lemma set_defined array i v :
  (i < length array)%nat → set array i v = <[i := v]> array.
Proof. intros Hi. unfold set. by rewrite decide_True. Qed.

Lemma swap_exchange l i j :
  (i < length l)%nat → (j < length l)%nat →
  swap (Some <$> l) i j = Some <$> exchange l i j.
Proof.
  intros Hi Hj. unfold swap, exchange. rewrite !get_defined.
  destruct (lookup_lt_is_Some_2 l i Hi) as [x Hx].
  destruct (lookup_lt_is_Some_2 l j Hj) as [y Hy].
  rewrite Hx, Hy.
  rewrite (set_defined (Some <$> l)) by (by rewrite length_fmap).
  rewrite set_defined by (by rewrite length_insert, length_fmap).
  by rewrite !list_fmap_insert.
Qed.

(** The loop of the source is the specification's loop on the drawn
    indices. *)
Lemma shuffleLoop_fisherYates random calls i l :
  unitInterval random →
  (i < length l)%nat → (calls + i = length l - 1)%nat →
  shuffleLoop random calls i (Some <$> l)
  = Some <$> fisherYatesFrom (drawAt random (length l)) i l.
Proof.
  intros Hunit. revert calls l.
  induction i as [|i IH]; intros calls l Hi Hcalls; simpl; [reflexivity|].
  pose proof (randomIndex_le _ (S i) (Hunit calls)) as Hj.
  rewrite swap_exchange by lia.
  unfold drawAt at 2.
  replace (length l - 1 - S i)%nat with calls by lia.
  rewrite IH by (rewrite exchange_length; lia).
  by rewrite exchange_length.
Qed.

(** The loop from [i] down reads the draws of the calls [calls] to
    [calls + i - 1] only. *)
Lemma shuffleLoop_ext random random' calls i array :
  (∀ k, (calls <= k < calls + i)%nat → random' k = random k) →
  shuffleLoop random' calls i array = shuffleLoop random calls i array.
Proof.
  revert calls array.
  induction i as [|i IH]; intros calls array Hsame; simpl; [reflexivity|].
  rewrite (Hsame calls) by lia. apply IH. intros k Hk. apply Hsame. lia.
Qed.

(** C5. With a random source of doubles in [[0, 1)], [shuffleArray] is the
    Fisher-Yates loop: at each [i] from the last index down to 1 the
    drawn index is in [[0, i]], it is the floor of the product of the
    random value with [i + 1] (or one more, when the double product rounds
    up to the next integer), every index of [[0, i]] is drawn by some
    random value, and the elements at [i] and at the drawn index are
    exchanged; the result is a permutation of the input of the same
    length; and random sources that agree on the [length - 1] calls made
    give the same result. *)
Theorem shuffleArray_fisherYates random l :
  unitInterval random →
  (∀ i, (drawAt random (length l) i <= i)%nat) ∧
  (∀ i, Z.of_nat i < 2 ^ 53 →
     significand (random (length l - 1 - i)%nat) * (Z.of_nat i + 1)
       / 2 ^ scale (random (length l - 1 - i)%nat)
     <= Z.of_nat (drawAt random (length l) i)
     <= significand (random (length l - 1 - i)%nat) * (Z.of_nat i + 1)
          / 2 ^ scale (random (length l - 1 - i)%nat) + 1) ∧
  (∀ i j, (j <= i)%nat → Z.of_nat i < 2 ^ 32 →
     ∃ r, inUnit r ∧ randomIndex r i = j) ∧
  shuffleArray random (Some <$> l)
  = Some <$> fisherYates (drawAt random (length l)) l ∧
  fisherYates (drawAt random (length l)) l ≡ₚ l ∧
  length (shuffleArray random (Some <$> l)) = length l ∧
  (∀ random', (∀ k, (k < length l - 1)%nat → random' k = random k) →
              shuffleArray random' (Some <$> l)
              = shuffleArray random (Some <$> l)).
Proof.
  intros Hunit.
  assert (Heq : shuffleArray random (Some <$> l)
                = Some <$> fisherYates (drawAt random (length l)) l).
  { unfold shuffleArray, fisherYates. rewrite length_fmap.
    destruct l as [|x l]; [reflexivity|].
    apply shuffleLoop_fisherYates; simpl; [assumption|lia|lia]. }
  split; [|split; [|split; [|split; [exact Heq|split; [|split]]]]].
  - intros i. unfold drawAt. apply randomIndex_le, Hunit.
  - intros i Hi. unfold drawAt, randomIndex.
    pose proof (Hunit (length l - 1 - i)%nat) as Hr.
    pose proof (floorOfProduct_range _ (Z.of_nat i + 1) Hr ltac:(lia)).
    pose proof (floorOfProduct_exact_or_next _ (Z.of_nat i + 1) Hr ltac:(lia)).
    rewrite Z2Nat.id by lia. assumption.
  - intros i j Hj Hi.
    destruct (drawFor_spec (Z.of_nat j) (Z.of_nat i + 1)) as [Hr Hfloor];
      [lia|lia|].
    exists (drawFor (Z.of_nat j) (Z.of_nat i + 1)). split; [exact Hr|].
    unfold randomIndex. rewrite Hfloor. apply Nat2Z.id.
  - apply fisherYatesFrom_Permutation.
  - rewrite Heq, length_fmap.
    apply Permutation_length, fisherYatesFrom_Permutation.
  - intros random' Hsame. unfold shuffleArray. rewrite length_fmap.
    apply shuffleLoop_ext. intros k Hk. apply Hsame. lia.
Qed.
End Shuffle.

(** A run of the source: with every draw equal to one half, [i = 2] draws
    [j = 1] and [i = 1] draws [j = 1]. *)
Example shuffleArray_halves :
  shuffleArray (λ _, oneHalf) [Some 10; Some 20; Some 30]%nat
  = [Some 10; Some 30; Some 20]%nat.
Proof. vm_compute. reflexivity. Qed.

Lemma shuffleArray_fisherYates_witness :
  unitInterval (λ _, oneHalf) ∧
  length (shuffleArray (λ _, oneHalf) (Some <$> [10; 20; 30]%nat)) = 3%nat.
Proof.
  assert (Hunit : unitInterval (λ _, oneHalf)).
  { intros k. unfold inUnit, oneHalf. simpl. lia. }
  split; [exact Hunit|].
  exact (proj1 (proj2 (proj2 (proj2 (proj2 (proj2
           (shuffleArray_fisherYates (λ _, oneHalf) [10; 20; 30]%nat
              Hunit))))))).
Defined.

End AppFacts.

(** * Properties of the quiz input form *)
Module QuizInputFacts.
Import QuizInput.

(** ** The question count *)

(** C6. The value stored by the num-questions input is
    [max(1, min(50, floor(N)))] for every numeric input [N], and 1 for
    [NaN]: flooring after clamping, as the code does, gives the same
    integer as clamping after flooring. *)
Theorem numQuestionsOnChange_clamp (num : JsNumber) :
  numQuestionsOnChange num = clampSpec num ∧
  1 <= numQuestionsOnChange num <= 50.
Proof.
  destruct num as [|q]; simpl; [lia|].
  assert (H1 : Qfloor 1 = 1) by reflexivity.
  assert (H50 : Qfloor 50 = 50) by reflexivity.
  destruct (Qlt_le_dec q 1) as [Hlow|Hlow].
  - assert (Hq50 : (q <= 50)%Q).
    { apply Qlt_le_weak, Qlt_trans with 1%Q; [assumption|reflexivity]. }
    rewrite (Q.min_r 50 q Hq50), (Q.max_l 1 q (Qlt_le_weak _ _ Hlow)).
    pose proof (Qfloor_resp_le _ _ (Qlt_le_weak _ _ Hlow)). lia.
  - destruct (Qlt_le_dec 50 q) as [Hhigh|Hhigh].
    + rewrite (Q.min_l 50 q (Qlt_le_weak _ _ Hhigh)).
      rewrite (Q.max_r 1 50) by discriminate.
      pose proof (Qfloor_resp_le _ _ (Qlt_le_weak _ _ Hhigh)). lia.
    + rewrite (Q.min_r 50 q Hhigh), (Q.max_r 1 q Hlow).
      pose proof (Qfloor_resp_le _ _ Hlow).
      pose proof (Qfloor_resp_le _ _ Hhigh). lia.
Qed.

Example numQuestionsOnChange_samples :
  numQuestionsOnChange (Finite (7 # 2)) = 3 ∧
  numQuestionsOnChange (Finite (-5 # 2)) = 1 ∧
  numQuestionsOnChange (Finite (1 # 2)) = 1 ∧
  numQuestionsOnChange (Finite (101 # 2)) = 50 ∧
  numQuestionsOnChange NaN = 1.
Proof. repeat split. Qed.

(** ** The minimum text length *)

Lemma dropWhile_same_or_shorter {A} (p : A -> bool) (l : list A) :
  dropWhile p l = l ∨ (length (dropWhile p l) < length l)%nat.
Proof.
  induction l as [|x l IH]; simpl; [by left|].
  destruct (p x); [|by left].
  right. destruct IH as [->|IH]; lia.
Qed.

(** Trimming returns the text itself or a shorter one. *)
Lemma trim_same_or_shorter (t : Text) :
  trim t = t ∨ (length (trim t) < length t)%nat.
Proof.
  unfold trim.
  destruct (dropWhile_same_or_shorter isWhiteSpace t) as [->|Hl].
  - destruct (dropWhile_same_or_shorter isWhiteSpace (reverse t)) as [->|Hr].
    + left. apply reverse_involutive.
    + right. rewrite length_reverse in *. assumption.
  - right. rewrite length_reverse.
    destruct (dropWhile_same_or_shorter isWhiteSpace
                (reverse (dropWhile isWhiteSpace t))) as [->|Hr];
      rewrite length_reverse in *; lia.
Qed.

Section Form.
Variable File : Type.
Variable processPdf : File -> option Text.

(** C9, as the code has it. In text mode with a question count in
    1..50 the length that is compared with 100 is the length after
    trimming: a text of 99 characters is rejected with the validation
    message, generation is not invoked and the button is disabled; a text
    of 100 characters is passed to generation exactly when it has no
    leading or trailing whitespace, and is rejected in the same way
    otherwise. *)
Theorem text_minimum_length (s : State File) :
  mode s = TextMode → 1 <= numQuestions s <= 50 →
  (length (text s) = 99%nat →
     handleSubmit processPdf s
     = LocalError "Please enter at least 100 characters of text." ∧
     generated (handleSubmit processPdf s) = false ∧
     ∀ isGenerating isPdfProcessing,
       isButtonDisabled s isGenerating isPdfProcessing = true) ∧
  (length (text s) = 100%nat → trim (text s) = text s →
     handleSubmit processPdf s
     = OnGenerate (text s) (numQuestions s) (difficulty s) (filter s)
                  (negativeMarking s) ∧
     isButtonDisabled s false false = false) ∧
  (length (text s) = 100%nat → trim (text s) ≠ text s →
     handleSubmit processPdf s
     = LocalError "Please enter at least 100 characters of text." ∧
     generated (handleSubmit processPdf s) = false ∧
     ∀ isGenerating isPdfProcessing,
       isButtonDisabled s isGenerating isPdfProcessing = true).
Proof.
  intros Hmode Hnum.
  assert (Hrange : (numQuestions s <? 1) || (numQuestions s >? 50) = false).
  { apply orb_false_iff. split; [apply Z.ltb_ge|rewrite Z.gtb_ltb; apply Z.ltb_ge];
      lia. }
  assert (Hshort : (length (trim (text s)) < 100)%nat →
     handleSubmit processPdf s
     = LocalError "Please enter at least 100 characters of text." ∧
     generated (handleSubmit processPdf s) = false ∧
     ∀ isGenerating isPdfProcessing,
       isButtonDisabled s isGenerating isPdfProcessing = true).
  { intros Hlt. apply Nat.ltb_lt in Hlt.
    unfold handleSubmit, isButtonDisabled. rewrite Hrange, Hmode, Hlt.
    repeat split. by intros [] []. }
  pose proof (trim_same_or_shorter (text s)) as Htrim.
  split; [|split].
  - intros Hlen. apply Hshort. destruct Htrim as [->|]; lia.
  - intros Hlen Hsame.
    unfold handleSubmit, isButtonDisabled. rewrite Hrange, Hmode, Hsame.
    rewrite (proj2 (Nat.ltb_ge _ _)) by lia. by split.
  - intros Hlen Hdiff. apply Hshort. destruct Htrim as [?|?]; [done|lia].
Qed.
End Form.

(** C9 fails as stated: a text of exactly 100 characters that ends in a
    space is rejected and generation is not invoked. *)
Lemma padded_text_rejected_counterexample :
  length paddedHundred = 100%nat ∧
  handleSubmit noPdf (textForm paddedHundred)
  = LocalError "Please enter at least 100 characters of text." ∧
  generated (handleSubmit noPdf (textForm paddedHundred)) = false ∧
  isButtonDisabled (textForm paddedHundred) false false = true.
Proof. repeat split; vm_compute; reflexivity. Qed.

Example ninety_nine_letters_rejected :
  handleSubmit noPdf (textForm (replicate 99 0x61%N))
  = LocalError "Please enter at least 100 characters of text.".
Proof. vm_compute. reflexivity. Qed.

Lemma text_minimum_length_witness :
  mode (textForm hundredLetters) = TextMode ∧
  1 <= numQuestions (textForm hundredLetters) <= 50 ∧
  length (text (textForm hundredLetters)) = 100%nat ∧
  trim (text (textForm hundredLetters)) = text (textForm hundredLetters) ∧
  handleSubmit noPdf (textForm hundredLetters)
  = OnGenerate hundredLetters 10 Medium [] false.
Proof.
  assert (Hmode : mode (textForm hundredLetters) = TextMode) by reflexivity.
  assert (Hnum : 1 <= numQuestions (textForm hundredLetters) <= 50)
    by (simpl; lia).
  assert (Hlen : length (text (textForm hundredLetters)) = 100%nat)
    by reflexivity.
  assert (Htrim : trim (text (textForm hundredLetters))
                  = text (textForm hundredLetters)) by reflexivity.
  repeat (split; [assumption|]).
  exact (proj1 (proj1 (proj2
           (text_minimum_length Empty_set noPdf (textForm hundredLetters)
              Hmode Hnum)) Hlen Htrim)).
Defined.

End QuizInputFacts.

(** * Properties of generateQuizFromText *)
Module GeminiServiceFacts.
Import GeminiService.

Section Generate.
Variable JSON_parse : string -> Thrown + Json.
Variable trim : string -> string.
Variable nullReadMessage undefinedTrimMessage : string.

(** The validation lets a value through exactly when it has a
    [questions] field that is an array. *)
Lemma validate_sequence quizData :
  hasQuestionsSequence quizData = true →
  validate nullReadMessage quizData = inr quizData.
Proof.
  unfold validate, hasQuestionsSequence.
  destruct quizData as [| | | | |members]; try discriminate. simpl.
  destruct (property "questions" members) as [[]|]; try discriminate.
  reflexivity.
Qed.

Lemma validate_no_sequence quizData :
  hasQuestionsSequence quizData = false →
  validate nullReadMessage quizData
  = inl (ErrorObject
           match quizData with
           | JNull => nullReadMessage
           | _ => "Invalid quiz format received from API."
           end).
Proof.
  unfold validate, hasQuestionsSequence.
  destruct quizData as [| | | | |members]; try reflexivity. simpl.
  destruct (property "questions" members) as [[]|]; try discriminate;
    simpl; intros _; rewrite ?orb_true_r; reflexivity.
Qed.

(** C8. When the response text parses to a value without a [questions]
    field that is an array, the operation fails with an error whose
    message is "Failed to generate quiz. " followed by the message of the
    cause (the validation's own message, or the engine's message for
    reading a property of [null]); otherwise it returns the parsed
    value. *)
Theorem generateQuizFromText_validates (responseText : string) (quizData : Json) :
  JSON_parse (trim responseText) = inr quizData →
  generateQuizFromText JSON_parse trim nullReadMessage undefinedTrimMessage
    (inr (Some responseText)) =
  if hasQuestionsSequence quizData then inr quizData
  else inl (ErrorObject
              ("Failed to generate quiz. " ++
               match quizData with
               | JNull => nullReadMessage
               | _ => "Invalid quiz format received from API."
               end)).
Proof.
  intros Hparse. unfold generateQuizFromText, tryBlock. rewrite Hparse.
  destruct (hasQuestionsSequence quizData) eqn:Hseq.
  - by rewrite validate_sequence.
  - by rewrite validate_no_sequence.
Qed.
End Generate.

Example generate_without_questions :
  generateQuizFromText (parsesTo (JObject [("items"%string, JArray [])])) id
    "null" "undefined" (inr (Some "{}"%string))
  = inl (ErrorObject
           "Failed to generate quiz. Invalid quiz format received from API.").
Proof. reflexivity. Qed.

Example generate_questions_not_a_sequence :
  generateQuizFromText
    (parsesTo (JObject [("questions"%string, JString "none")])) id
    "null" "undefined" (inr (Some "{}"%string))
  = inl (ErrorObject
           "Failed to generate quiz. Invalid quiz format received from API.").
Proof. reflexivity. Qed.

Lemma generateQuizFromText_validates_witness :
  parsesTo emptyQuiz (id "{}"%string) = inr emptyQuiz ∧
  generateQuizFromText (parsesTo emptyQuiz) id "null" "undefined"
    (inr (Some "{}"%string))
  = inr emptyQuiz.
Proof.
  split; [reflexivity|].
  exact (generateQuizFromText_validates (parsesTo emptyQuiz) id
           "null" "undefined" "{}" emptyQuiz eq_refl).
Defined.

End GeminiServiceFacts.

(** * More properties of the quiz session *)
Module QuizSessionFacts.
Import QuizDisplay QuizDisplayFacts QuizLifecycle.

Lemma run_app quiz events more :
  run quiz (events ++ more) = fold_left (dispatch quiz) more (run quiz events).
Proof. unfold run. apply fold_left_app. Qed.

(** ** Results are final *)





(** ** Answers accumulate *)

Lemma dispatch_dom quiz s e :
  dom (userAnswers s) ⊆ dom (userAnswers (dispatch quiz s e)).
Proof.
  destruct (dispatch_answers quiz s e) as [->|(i & o & q & _ & _ & _ & ->)].
  - reflexivity.
  - rewrite dom_insert_L. set_solver.
Qed.

Lemma clicks_answered quiz controls s index :
  is_Some (userAnswers s !! index) →
  match clicks quiz (Some s) controls with
  | Some s' => is_Some (userAnswers s' !! index)
  | None => CreateAnotherQuiz ∈ controls
  end.
Proof.
  revert s. induction controls as [|c controls IH]; intros s Hsome;
    [exact Hsome|].
  destruct c as [e|]; unfold clicks in *; simpl.
  - assert (Hsome' : is_Some (userAnswers (dispatch quiz s e) !! index)).
    { apply elem_of_dom, (dispatch_dom quiz s e), elem_of_dom, Hsome. }
    specialize (IH _ Hsome').
    destruct (fold_left _ controls _); [exact IH|].
    apply elem_of_cons; by right.
  - destruct (showResults s).
    + assert (Hnone : fold_left (click quiz) controls None = None)
        by (clear; induction controls; simpl; auto).
      rewrite Hnone. apply elem_of_cons; by left.
    + specialize (IH _ Hsome).
      destruct (fold_left _ controls _); [exact IH|].
      apply elem_of_cons; by right.
Qed.

(** X2. While the component is mounted an answer can be replaced but never
    withdrawn: a question that has an answer keeps having one through
    every later click, until "Create Another Quiz" discards the whole
    session. *)
Theorem answered_stays_answered quiz events controls index :
  is_Some (userAnswers (run quiz events) !! index) →
  match clicks quiz (Some (run quiz events)) controls with
  | Some s' => is_Some (userAnswers s' !! index)
  | None => CreateAnotherQuiz ∈ controls
  end.
Proof. apply clicks_answered. Qed.

Lemma answered_stays_answered_witness :
  is_Some (userAnswers (run sampleQuiz [ClickOption 0 "b"]) !! 0%nat) ∧
  match clicks sampleQuiz
          (Some (run sampleQuiz [ClickOption 0 "b"]))
          [CreateAnotherQuiz;
           Interact (ClickOption 1 "a")] with
  | Some s' => is_Some (userAnswers s' !! 0%nat)
  | None => True
  end.
Proof.
  assert (H : is_Some (userAnswers (run sampleQuiz [ClickOption 0 "b"]) !! 0%nat))
    by (vm_compute; eauto).
  split; [exact H|].
  pose proof (answered_stays_answered sampleQuiz [ClickOption 0 "b"]
                [CreateAnotherQuiz;
                 Interact (ClickOption 1 "a")] 0 H) as H'.
  destruct (clicks sampleQuiz
              (Some (run sampleQuiz [ClickOption 0 "b"]))
              [CreateAnotherQuiz;
               Interact (ClickOption 1 "a")]);
    [exact H'|exact I].
Defined.

(** ** Recorded answers are options *)

Lemma run_answersAreOptions quiz events :
  QuestionCard.answersAreOptions quiz (run quiz events).
Proof.
  induction events as [|e events IH] using rev_ind.
  - intros index a Ha. vm_compute in Ha. discriminate.
  - rewrite run_snoc. intros index a.
    destruct (dispatch_answers quiz (run quiz events) e)
      as [->|(i & o & q & _ & Hq & Ho & ->)]; [apply IH|].
    destruct (decide (i = index)) as [->|Hne].
    + rewrite lookup_insert_eq. intros [= <-]. eauto.
    + rewrite lookup_insert_ne by done. apply IH.
Qed.

(** X3. Whatever the user does, the answer recorded for a question is one
    of that question's own options; so a question whose [correctAnswer] is
    not among its options can never be counted correct. *)
Theorem recorded_answer_is_option quiz events index a :
  userAnswers (run quiz events) !! index = Some a →
  ∃ q, questions quiz !! index = Some q ∧ a ∈ options q ∧
       (verdictAt quiz (userAnswers (run quiz events)) index = Some Correct →
        correctAnswer q ∈ options q).
Proof.
  intros Ha. destruct (run_answersAreOptions quiz events index a Ha)
    as (q & Hq & Hopt).
  exists q. repeat split; [assumption|assumption|].
  rewrite (verdictAt_question _ _ _ _ Hq), Ha. unfold classify.
  case_decide; [by subst|discriminate].
Qed.

Lemma recorded_answer_is_option_witness :
  userAnswers (run sampleQuiz sampleEvents) !! 1%nat = Some "c"%string ∧
  ∃ q, questions sampleQuiz !! 1%nat = Some q ∧ "c"%string ∈ options q.
Proof.
  assert (H : userAnswers (run sampleQuiz sampleEvents) !! 1%nat
              = Some "c"%string) by (vm_compute; reflexivity).
  split; [exact H|].
  destruct (recorded_answer_is_option sampleQuiz sampleEvents 1 "c" H)
    as (q & Hq & Ho & _).
  exists q. split; assumption.
Defined.

(** ** The quiz can always be finished *)

(** X4. From every state of a session, "Check Answers" followed by the
    modal's "Submit" ends in the results: the first click either shows
    them or opens the modal, and a click on a control that is not there
    does nothing. *)
Theorem two_clicks_to_results quiz events :
  phase (run quiz (events ++ [ClickCheckAnswers; ClickModalSubmit])) = Results.
Proof.
  rewrite run_app. set (s := run quiz events). cbn [fold_left].
  assert (H1 : showResults (dispatch quiz s ClickCheckAnswers) = true
               ∨ isConfirmModalOpen (dispatch quiz s ClickCheckAnswers) = true).
  { unfold dispatch, rendered, handleSubmitClick.
    destruct (showResults s) eqn:Hshow; simpl; [by left|].
    destruct (size (userAnswers s) <? length (questions quiz))%nat; simpl; auto. }
  assert (H2 : ∀ t, showResults t = true ∨ isConfirmModalOpen t = true →
                    showResults (dispatch quiz t ClickModalSubmit) = true).
  { intros t Ht. unfold dispatch, rendered.
    destruct (isConfirmModalOpen t); [reflexivity|].
    by destruct Ht. }
  unfold phase. by rewrite (H2 _ H1).
Qed.

End QuizSessionFacts.
(** * More properties of the score *)
Module ScoreFacts.
Import QuizDisplay QuizDisplayFacts.

Lemma tallyOver_le v quiz answers indices :
  (tallyOver v quiz answers indices <= length indices)%nat.
Proof. unfold tallyOver. apply length_filter. Qed.

(** X5. Once the results are shown every count lies between 0 and the
    number of questions, and the score lies between 0 (or minus the number
    of questions with negative marking) and [correctCount]. *)
Theorem score_bounds quiz answers negativeMarking :
  ∃ r, scoreMemo quiz answers true negativeMarking = Some r ∧
       0 <= correctCount r <= Z.of_nat (length (questions quiz)) ∧
       0 <= incorrectCount r <= Z.of_nat (length (questions quiz)) ∧
       0 <= unansweredCount r <= Z.of_nat (length (questions quiz)) ∧
       (if negativeMarking then - Z.of_nat (length (questions quiz)) else 0)
         <= score r <= correctCount r.
Proof.
  eexists. split; [apply scoreMemo_results|]. simpl.
  pose proof (tally_partition quiz answers).
  destruct negativeMarking; repeat split; lia.
Qed.

(** A filter keeps the whole list exactly when every element passes. *)
Lemma length_filter_all {A} (P : A → Prop) `{!∀ x, Decision (P x)} (l : list A) :
  length (filter P l) = length l ↔ Forall P l.
Proof.
  induction l as [|x l IH].
  - split; constructor.
  - rewrite filter_cons. pose proof (length_filter P l).
    destruct (decide (P x)); simpl.
    + rewrite Forall_cons. split.
      * intros Hlen. split; [assumption|]. apply IH. lia.
      * intros [_ Hall]. f_equal. by apply IH.
    + split; [lia|]. by intros [? _]%Forall_cons.
Qed.

Lemma tally_Correct_all quiz answers :
  tally Correct quiz answers = length (questions quiz) ↔
  ∀ index q, questions quiz !! index = Some q →
             answers !! index = Some (correctAnswer q).
Proof.
  unfold tally, tallyOver.
  pose proof (length_filter_all
                (λ index, verdictAt quiz answers index = Some Correct)
                (seq 0 (length (questions quiz)))) as Hiff.
  rewrite length_seq in Hiff. rewrite Hiff, Forall_forall. split.
  - intros Hall index q Hq.
    assert (Hin : index ∈ seq 0 (length (questions quiz))).
    { apply elem_of_seq. apply lookup_lt_Some in Hq. lia. }
    specialize (Hall index Hin).
    rewrite (verdictAt_question _ _ _ _ Hq) in Hall. unfold classify in Hall.
    destruct (answers !! index) as [a|]; [|discriminate].
    case_decide; [by subst|discriminate].
  - intros Hall index Hin. apply elem_of_seq in Hin.
    destruct (lookup_lt_is_Some_2 (questions quiz) index) as [q Hq]; [lia|].
    rewrite (verdictAt_question _ _ _ _ Hq), (Hall _ _ Hq). unfold classify.
    by rewrite decide_True.
Qed.

(** X6. With or without negative marking, the score equals the number of
    questions exactly when every question has its correct answer
    recorded. *)
Theorem full_score_iff_all_correct quiz answers negativeMarking :
  ∃ r, scoreMemo quiz answers true negativeMarking = Some r ∧
       (score r = Z.of_nat (length (questions quiz)) ↔
        ∀ index q, questions quiz !! index = Some q →
                   answers !! index = Some (correctAnswer q)).
Proof.
  eexists. split; [apply scoreMemo_results|]. simpl.
  rewrite <-tally_Correct_all.
  pose proof (tally_partition quiz answers).
  destruct negativeMarking; lia.
Qed.

Lemma forEachIndex_agree quiz answers answers' indices acc :
  Forall (λ index, answers !! index = answers' !! index) indices →
  forEachIndex (scoreCallback quiz answers) indices acc
  = forEachIndex (scoreCallback quiz answers') indices acc.
Proof.
  intros Hall. revert acc.
  induction Hall as [|index indices Heq _ IH]; intros acc; simpl; [reflexivity|].
  assert (Hcb : scoreCallback quiz answers acc index
                = scoreCallback quiz answers' acc index).
  { unfold scoreCallback. by rewrite Heq. }
  rewrite Hcb. destruct (scoreCallback quiz answers' acc index); auto.
Qed.

(** X7. The score reads the answer map only at the question indices: two
    maps that agree there give the same score record, whatever else they
    contain. *)
Theorem score_reads_question_indices_only quiz answers answers' showRes negativeMarking :
  (∀ index, (index < length (questions quiz))%nat →
            answers !! index = answers' !! index) →
  scoreMemo quiz answers showRes negativeMarking
  = scoreMemo quiz answers' showRes negativeMarking.
Proof.
  intros Hagree. unfold scoreMemo. destruct showRes; simpl; [|reflexivity].
  rewrite (forEachIndex_agree quiz answers answers'); [reflexivity|].
  apply Forall_forall. intros index Hin. apply elem_of_seq in Hin.
  apply Hagree. lia.
Qed.

Lemma score_reads_question_indices_only_witness :
  (∀ index, (index < length (questions sampleQuiz))%nat →
            ({[ 0%nat := "a"%string ]} : gmap nat string) !! index
            = ({[ 0%nat := "a"%string; 7%nat := "b"%string ]} : gmap nat string)
                !! index) ∧
  scoreMemo sampleQuiz {[ 0%nat := "a"%string ]} true true
  = scoreMemo sampleQuiz {[ 0%nat := "a"%string; 7%nat := "b"%string ]} true true.
Proof.
  assert (H : ∀ index, (index < length (questions sampleQuiz))%nat →
            ({[ 0%nat := "a"%string ]} : gmap nat string) !! index
            = ({[ 0%nat := "a"%string; 7%nat := "b"%string ]} : gmap nat string)
                !! index).
  { intros index Hlt. simpl in Hlt.
    destruct index as [|[|[|index]]]; [reflexivity..|lia]. }
  split; [exact H|].
  exact (score_reads_question_indices_only sampleQuiz _ _ true true H).
Defined.

(** The question indices with an answer, when all keys are question
    indices, are as many as the keys. *)
Lemma answered_indices_size (n : nat) (answers : gmap nat string) :
  (∀ index, is_Some (answers !! index) → (index < n)%nat) →
  length (filter (λ index, is_Some (answers !! index)) (seq 0 n)) = size answers.
Proof.
  intros Hrange. rewrite <-size_dom. unfold size, set_size. simpl.
  apply Permutation_length, NoDup_Permutation.
  - apply NoDup_filter, NoDup_seq.
  - apply NoDup_elements.
  - intros index. rewrite list_elem_of_filter, elem_of_seq, elem_of_elements,
      elem_of_dom. split; [by intros [? _]|].
    intros Hsome. split; [assumption|]. specialize (Hrange _ Hsome). lia.
Qed.

Lemma filter_iff_on {A} (P1 P2 : A → Prop)
    `{!∀ x, Decision (P1 x), !∀ x, Decision (P2 x)} (l : list A) :
  Forall (λ x, P1 x ↔ P2 x) l → filter P1 l = filter P2 l.
Proof.
  induction 1 as [|x l Hx _ IH]; [reflexivity|].
  rewrite !filter_cons, IH.
  destruct (decide (P1 x)), (decide (P2 x)); tauto.
Qed.

Lemma tally_Unanswered_filter quiz answers :
  tally Unanswered quiz answers
  = length (filter (λ index, ¬ is_Some (answers !! index))
                   (seq 0 (length (questions quiz)))).
Proof.
  unfold tally, tallyOver. f_equal. apply filter_iff_on.
  apply Forall_forall. intros index Hin. apply elem_of_seq in Hin.
  destruct (lookup_lt_is_Some_2 (questions quiz) index) as [q Hq]; [lia|].
  rewrite (verdictAt_question _ _ _ _ Hq). unfold classify.
  destruct (answers !! index) as [a|].
  - split; [case_decide; discriminate|]. intros Hn. destruct Hn. eauto.
  - split; [|reflexivity]. intros _ [? ?]. discriminate.
Qed.

(** X8. In a session whose results are shown, the number that "Check
    Answers" compares with the number of questions is the number of
    answered questions of the score: [unansweredCount] is the number of
    questions minus the number of keys of the answer map, and
    [correctCount + incorrectCount] is the number of keys. *)
Theorem unanswered_is_questions_minus_keys quiz events negativeMarking :
  showResults (run quiz events) = true →
  ∃ r, scoreMemo quiz (userAnswers (run quiz events))
         (showResults (run quiz events)) negativeMarking = Some r ∧
       unansweredCount r
       = Z.of_nat (length (questions quiz))
         - Z.of_nat (size (userAnswers (run quiz events))) ∧
       correctCount r + incorrectCount r
       = Z.of_nat (size (userAnswers (run quiz events))).
Proof.
  intros Hshow. rewrite Hshow. set (s := run quiz events).
  eexists. split; [apply scoreMemo_results|]. simpl.
  pose proof (tally_partition quiz (userAnswers s)) as Hsum.
  pose proof (answered_indices_size (length (questions quiz)) (userAnswers s)
                (run_inRange quiz events)) as Hsize.
  pose proof (filter_app_complement (λ index, is_Some (userAnswers s !! index))
                (seq 0 (length (questions quiz)))) as Hperm.
  apply Permutation_length in Hperm.
  rewrite length_app, length_seq, Hsize in Hperm.
  rewrite tally_Unanswered_filter in *. lia.
Qed.

Lemma unanswered_is_questions_minus_keys_witness :
  showResults (run sampleQuiz sampleEvents) = true ∧
  ∃ r, scoreMemo sampleQuiz (userAnswers (run sampleQuiz sampleEvents))
         (showResults (run sampleQuiz sampleEvents)) true = Some r ∧
       unansweredCount r = 1.
Proof.
  assert (Hshow : showResults (run sampleQuiz sampleEvents) = true)
    by (vm_compute; reflexivity).
  split; [exact Hshow|].
  destruct (unanswered_is_questions_minus_keys sampleQuiz sampleEvents true
              Hshow) as (r & Hr & Hun & _).
  exists r. split; [exact Hr|]. rewrite Hun. vm_compute. reflexivity.
Defined.

(** X9. Selections compose as updates of a map: a second selection for the
    same question replaces the first, and selections for different
    questions can be made in either order. *)
Theorem selections_compose s i j a b :
  handleAnswerSelect (handleAnswerSelect s i a) i b = handleAnswerSelect s i b ∧
  (i ≠ j →
   handleAnswerSelect (handleAnswerSelect s i a) j b
   = handleAnswerSelect (handleAnswerSelect s j b) i a).
Proof.
  unfold handleAnswerSelect.
  destruct (showResults s) eqn:Hshow; simpl; rewrite ?Hshow; [by split|].
  split.
  - by rewrite insert_insert_eq.
  - intros Hne. f_equal. by apply insert_insert_ne.
Qed.

End ScoreFacts.
(** * Properties of the question cards *)
Module QuestionCardFacts.
Import QuizDisplay QuizDisplayFacts QuestionCard.

Lemma cards_lookup quiz s index :
  cards quiz s !! index
  = (λ q, questionCard q index (userAnswers s !! index) (showResults s))
      <$> questions quiz !! index.
Proof. unfold cards. apply list_lookup_imap. Qed.

Lemma elem_of_questionCard q index userAnswer showResult b :
  b ∈ questionCard q index userAnswer showResult ↔
  ∃ o, b = optionButton q index userAnswer showResult o ∧ o ∈ options q.
Proof. unfold questionCard. apply list_elem_of_fmap. Qed.

(** X10. The option buttons are the only way to select an answer and each
    is bound to its own question: every button of the card at [index]
    selects an option of that question at that index, and an option can be
    clicked exactly when the card has an enabled button for it. *)
Theorem option_buttons_select_own_question quiz s index :
  (∀ card b, cards quiz s !! index = Some card → b ∈ card →
     ∃ q o, questions quiz !! index = Some q ∧ o ∈ options q ∧
            onClick b = ClickOption index o ∧ disabled b = showResults s) ∧
  (∀ option,
     rendered quiz s (ClickOption index option) = true ↔
     ∃ card b, cards quiz s !! index = Some card ∧ b ∈ card ∧
               onClick b = ClickOption index option ∧ disabled b = false).
Proof.
  split.
  - intros card b Hcard Hb. rewrite cards_lookup in Hcard.
    destruct (questions quiz !! index) as [q|]; [|discriminate].
    injection Hcard as <-.
    apply elem_of_questionCard in Hb as (o & -> & Ho).
    exists q, o. repeat split; assumption.
  - intros option. simpl. rewrite cards_lookup.
    destruct (questions quiz !! index) as [q|]; simpl.
    + rewrite andb_true_iff, bool_decide_eq_true, negb_true_iff. split.
      * intros [Ho Hshow]. eexists _, _. split; [reflexivity|].
        split; [apply elem_of_questionCard; eauto|]. by split.
      * intros (card & b & [= <-] & Hb & Hclick & Hdis).
        apply elem_of_questionCard in Hb as (o & -> & Ho).
        simpl in *. injection Hclick as ->. by split.
    + split; [discriminate|]. intros (? & ? & [=] & _).
Qed.

(** X11. In a session whose results are shown the marks on a card agree
    with the score: the question is counted incorrect exactly when one of
    its buttons carries the X icon, and counted correct exactly when the
    button of the recorded answer carries the check icon. *)
Theorem marks_agree_with_score quiz events index card :
  showResults (run quiz events) = true →
  cards quiz (run quiz events) !! index = Some card →
  (verdictAt quiz (userAnswers (run quiz events)) index = Some Incorrect ↔
   ∃ b, b ∈ card ∧ xIcon b = true) ∧
  (verdictAt quiz (userAnswers (run quiz events)) index = Some Correct ↔
   ∃ b a, b ∈ card ∧ userAnswers (run quiz events) !! index = Some a ∧
          onClick b = ClickOption index a ∧ checkIcon b = true).
Proof.
  intros Hshow Hcard. pose proof (QuizSessionFacts.run_answersAreOptions quiz events) as Hopts.
  set (s := run quiz events) in *. rewrite cards_lookup in Hcard.
  destruct (questions quiz !! index) as [q|] eqn:Hq; [|discriminate].
  injection Hcard as <-. rewrite (verdictAt_question _ _ _ _ Hq), Hshow.
  unfold classify. split; split.
  - destruct (userAnswers s !! index) as [a|] eqn:Ha; [|discriminate].
    case_decide as Hne; [discriminate|]. intros _.
    destruct (Hopts index a Ha) as (q' & Hq' & Hin).
    assert (q' = q) as -> by congruence.
    exists (optionButton q index (Some a) true a).
    split; [apply elem_of_questionCard; eauto|]. simpl.
    rewrite bool_decide_eq_true_2 by done.
    rewrite bool_decide_eq_false_2 by congruence. reflexivity.
  - intros (b & Hb & Hx). apply elem_of_questionCard in Hb as (o & -> & Ho).
    simpl in Hx. apply andb_prop in Hx as [Hsel Hcor].
    apply bool_decide_eq_true in Hsel. apply negb_true_iff in Hcor.
    apply bool_decide_eq_false in Hcor. rewrite Hsel.
    rewrite decide_False by congruence. reflexivity.
  - destruct (userAnswers s !! index) as [a|] eqn:Ha; [|discriminate].
    case_decide as Heq; [|discriminate]. intros _.
    destruct (Hopts index a Ha) as (q' & Hq' & Hin).
    assert (q' = q) as -> by congruence.
    exists (optionButton q index (Some a) true a), a.
    split; [apply elem_of_questionCard; eauto|]. simpl.
    rewrite bool_decide_eq_true_2 by done. auto.
  - intros (b & a & Hb & Ha & Hclick & Hcheck).
    apply elem_of_questionCard in Hb as (o & -> & Ho).
    simpl in *. injection Hclick as ->.
    apply bool_decide_eq_true in Hcheck. rewrite Ha.
    rewrite decide_True by done. reflexivity.
Qed.

Lemma marks_agree_with_score_witness :
  showResults (run sampleQuiz sampleEvents) = true ∧
  (verdictAt sampleQuiz (userAnswers (run sampleQuiz sampleEvents)) 1
   = Some Incorrect ↔
   ∃ b, b ∈ questionCard (mkQuestion "q1" ["a"; "b"; "c"; "d"] "b") 1
              (userAnswers (run sampleQuiz sampleEvents) !! 1%nat)
              (showResults (run sampleQuiz sampleEvents))
        ∧ xIcon b = true).
Proof.
  assert (Hshow : showResults (run sampleQuiz sampleEvents) = true)
    by (vm_compute; reflexivity).
  split; [exact Hshow|].
  exact (proj1 (marks_agree_with_score sampleQuiz sampleEvents 1 _ Hshow
                  (cards_lookup sampleQuiz (run sampleQuiz sampleEvents) 1))).
Defined.

End QuestionCardFacts.
(** * More properties of the quiz input form *)
Module QuizInputMoreFacts.
Import QuizInput QuizInputFacts QuizInputForm.

(** ** The question count *)

(** X12. An integer from 1 to 50 typed into the num-questions input is
    stored unchanged. *)
Theorem numQuestionsOnChange_integer (z : Z) :
  1 <= z <= 50 → numQuestionsOnChange (Finite (inject_Z z)) = z.
Proof.
  intros Hz. simpl.
  assert (H50 : (inject_Z z <= 50)%Q) by (change 50%Q with (inject_Z 50); rewrite <-Zle_Qle; lia).
  assert (H1 : (1 <= inject_Z z)%Q) by (change 1%Q with (inject_Z 1); rewrite <-Zle_Qle; lia).
  rewrite (Q.min_r 50 _ H50), (Q.max_r 1 _ H1). apply Qfloor_Z.
Qed.

Lemma numQuestionsOnChange_integer_witness :
  1 <= 37 <= 50 ∧ numQuestionsOnChange (Finite (inject_Z 37)) = 37.
Proof. split; [lia|]. apply numQuestionsOnChange_integer. lia. Defined.

(** X13. The stored question count is monotone in the number typed. *)
Theorem numQuestionsOnChange_monotone (q q' : Q) :
  (q <= q')%Q →
  numQuestionsOnChange (Finite q) <= numQuestionsOnChange (Finite q').
Proof.
  intros Hle. simpl. apply Qfloor_resp_le.
  apply Q.max_le_compat_l, Q.min_le_compat_l, Hle.
Qed.

Lemma numQuestionsOnChange_monotone_witness :
  (7 # 2 <= 9 # 2)%Q ∧
  numQuestionsOnChange (Finite (7 # 2)) <= numQuestionsOnChange (Finite (9 # 2)).
Proof.
  assert (H : (7 # 2 <= 9 # 2)%Q) by discriminate.
  split; [exact H|]. exact (numQuestionsOnChange_monotone _ _ H).
Defined.

(** ** The submit button and the validation *)

Section Form.
Variable File : Type.
Variable processPdf : File -> option Text.

Lemma button_gate (s : State File) :
  isButtonDisabled s false false = rejected (handleSubmit processPdf s).
Proof.
  unfold isButtonDisabled, handleSubmit. simpl.
  destruct ((numQuestions s <? 1) || (numQuestions s >? 50)); [reflexivity|].
  destruct (mode s).
  - destruct (length (trim (text s)) <? 100)%nat; reflexivity.
  - destruct (file s) as [f|]; [|reflexivity].
    destruct (processPdf f) as [[|? ?]|]; reflexivity.
Qed.

(** X14. While nothing is loading, the "Generate Quiz" button is disabled
    exactly when [handleSubmit] would reject the form with a validation
    message. *)
Theorem button_disabled_iff_rejected (s : State File) :
  isButtonDisabled s false false = true ↔
  ∃ message, handleSubmit processPdf s = LocalError message.
Proof.
  rewrite button_gate. unfold rejected.
  destruct (handleSubmit processPdf s); split; eauto; try discriminate;
    intros [? [=]].
Qed.

(** X15. Whenever [handleSubmit] calls [onGenerate], the question count is
    the stored one and lies in 1..50, the other settings are the stored
    ones, and the source text is not empty: in text mode it is the typed
    text itself, untrimmed, of at least 100 characters after trimming; in
    PDF mode it is what [processPdf] returned for the stored file. *)
Theorem onGenerate_arguments (s : State File) sourceText n level topic negMarking :
  handleSubmit processPdf s = OnGenerate sourceText n level topic negMarking →
  n = numQuestions s ∧ 1 <= n <= 50 ∧
  level = difficulty s ∧ topic = filter s ∧ negMarking = negativeMarking s ∧
  sourceText ≠ [] ∧
  match mode s with
  | TextMode => sourceText = text s ∧ (100 <= length (trim sourceText))%nat
  | PdfMode => ∃ f, file s = Some f ∧ processPdf f = Some sourceText
  end.
Proof.
  unfold handleSubmit.
  destruct ((numQuestions s <? 1) || (numQuestions s >? 50)) eqn:Hrange;
    [discriminate|].
  apply orb_false_iff in Hrange as [Hlo Hhi].
  apply Z.ltb_ge in Hlo. rewrite Z.gtb_ltb in Hhi. apply Z.ltb_ge in Hhi.
  destruct (mode s).
  - destruct (Nat.ltb_spec (length (trim (text s))) 100) as [|Hlen];
      [discriminate|].
    intros [= <- <- <- <- <-]. repeat split; try lia; try assumption.
    intros Hnil. rewrite Hnil in Hlen. simpl in Hlen. lia.
  - destruct (file s) as [f|]; [|discriminate].
    destruct (processPdf f) as [[|c pdfText]|] eqn:Hpdf; try discriminate.
    intros [= <- <- <- <- <-]. repeat split; try lia; try discriminate.
    exists f. by split.
Qed.

Lemma dropWhile_all {A} (p : A -> bool) (l : list A) :
  Forall (λ x, p x = true) l → dropWhile p l = [].
Proof. induction 1 as [|x l Hx _ IH]; simpl; [reflexivity|]. by rewrite Hx. Qed.

(** X16. In text mode a text made of whitespace only is rejected whatever
    its length, and generation is not invoked. *)
Theorem blank_text_rejected (s : State File) :
  mode s = TextMode →
  Forall (λ c, isWhiteSpace c = true) (text s) →
  rejected (handleSubmit processPdf s) = true ∧
  generated (handleSubmit processPdf s) = false.
Proof.
  intros Hmode Hblank. unfold handleSubmit.
  destruct ((numQuestions s <? 1) || (numQuestions s >? 50)); [by split|].
  rewrite Hmode. unfold trim. rewrite (dropWhile_all _ _ Hblank). simpl.
  by split.
Qed.
End Form.

Lemma onGenerate_arguments_witness :
  handleSubmit noPdf (textForm hundredLetters)
  = OnGenerate hundredLetters 10 Medium [] false ∧
  hundredLetters ≠ [].
Proof.
  assert (H : handleSubmit noPdf (textForm hundredLetters)
              = OnGenerate hundredLetters 10 Medium [] false) by reflexivity.
  split; [exact H|].
  exact (proj1 (proj2 (proj2 (proj2 (proj2 (proj2
           (onGenerate_arguments Empty_set noPdf _ _ _ _ _ _ H))))))).
Defined.

Lemma blank_text_rejected_witness :
  mode (textForm (replicate 150 0x20%N)) = TextMode ∧
  Forall (λ c, isWhiteSpace c = true) (text (textForm (replicate 150 0x20%N))) ∧
  rejected (handleSubmit noPdf (textForm (replicate 150 0x20%N))) = true.
Proof.
  assert (Hmode : mode (textForm (replicate 150 0x20%N)) = TextMode)
    by reflexivity.
  assert (Hblank : Forall (λ c, isWhiteSpace c = true)
                     (text (textForm (replicate 150 0x20%N)))).
  { apply (Forall_replicate (λ c, isWhiteSpace c = true) 150 0x20%N).
    reflexivity. }
  split; [exact Hmode|]. split; [exact Hblank|].
  exact (proj1 (blank_text_rejected Empty_set noPdf _ Hmode Hblank)).
Defined.

(** ** The form through its controls *)

Section Controls.
Variable File : Type.
Variable fileType : File -> string.
Variable processPdf : File -> option Text.

Lemma numQuestionsOnChange_range (num : JsNumber) :
  1 <= numQuestionsOnChange num <= 50.
Proof.
  destruct num as [|q]; simpl; [lia|].
  pose proof (Qfloor_resp_le _ _ (Q.le_max_l 1 (Qmin 50 q))) as Hlo.
  assert (Hhi : (Qmax 1 (Qmin 50 q) <= 50)%Q)
    by (apply Q.max_lub; [discriminate|apply Q.le_min_l]).
  apply Qfloor_resp_le in Hhi.
  change (Qfloor 1) with 1 in Hlo. change (Qfloor 50) with 50 in Hhi. lia.
Qed.

Lemma formStep_invariant (s : Form File) e :
  formInvariant fileType s →
  formInvariant fileType (formStep fileType processPdf s e).
Proof.
  intros (Hnum & Hfile & Herr).
  destruct e as [m|t|[f|]|num|level|t| |]; simpl;
    try (split; [|split]; assumption).
  - unfold handleFileChange.
    destruct (decide (fileType f = "application/pdf"%string)) as [Hpdf|Hpdf].
    + rewrite bool_decide_eq_false_2 by tauto.
      split; [|split]; simpl; [assumption| |by left].
      by intros ? [= <-].
    + rewrite bool_decide_eq_true_2 by assumption.
      split; [|split]; simpl; [assumption|discriminate|by right].
  - split; [|split]; simpl; [|assumption..].
    apply numQuestionsOnChange_range.
  - rewrite (button_gate File processPdf).
    destruct (handleSubmit processPdf (fields s)) eqn:Hsubmit; simpl;
      [split; [|split]; assumption| |];
      (split; [|split]; simpl; [assumption|assumption|by left]).
Qed.

Lemma runForm_invariant events :
  formInvariant fileType (runForm fileType processPdf events).
Proof.
  induction events as [|e events IH] using rev_ind.
  - split; [|split]; simpl; [lia|discriminate|by left].
  - unfold runForm. rewrite fold_left_app. simpl. by apply formStep_invariant.
Qed.

(** X17. Through the controls of the form the stored question count stays
    in 1..50, so a submission is never rejected for its question count;
    and a stored file always has the MIME type [application/pdf], so
    nothing else is ever handed to [processPdf]. *)
Theorem form_keeps_count_and_file_valid events :
  let s := runForm fileType processPdf events in
  1 <= numQuestions (fields s) <= 50 ∧
  handleSubmit processPdf (fields s)
  ≠ LocalError "Please enter a number of questions between 1 and 50." ∧
  (∀ f, file (fields s) = Some f → fileType f = "application/pdf"%string).
Proof.
  intros s. destruct (runForm_invariant events) as (Hnum & Hfile & _).
  fold s in Hnum, Hfile. split; [assumption|]. split; [|assumption].
  unfold handleSubmit.
  rewrite (proj2 (Z.ltb_ge _ _)) by lia.
  rewrite Z.gtb_ltb, (proj2 (Z.ltb_ge _ _)) by lia. simpl.
  destruct (mode (fields s)).
  - destruct (length (trim (text (fields s))) <? 100)%nat; discriminate.
  - destruct (file (fields s)) as [f|]; [|discriminate].
    destruct (processPdf f) as [[|? ?]|]; discriminate.
Qed.

(** X18. Through the controls of the form [localError] is only ever empty
    or the file-type message of the file picker: the messages of
    [handleSubmit] cannot appear in it, because the button that calls it is
    disabled whenever it would reject. *)
Theorem only_file_type_message_is_shown events :
  localError (runForm fileType processPdf events) = None ∨
  localError (runForm fileType processPdf events)
  = Some "Please upload a PDF file."%string.
Proof. apply runForm_invariant. Qed.

(** Choosing a file that is not a PDF shows the file-type message and
    discards a file chosen before; choosing a PDF stores it and clears the
    message; closing the picker without a file changes nothing. *)
Lemma handleFileChange_cases (s : Form File) (selectedFile : option File) :
  match selectedFile with
  | None => handleFileChange fileType selectedFile s = s
  | Some f =>
      let s' := handleFileChange fileType selectedFile s in
      (if decide (fileType f = "application/pdf"%string)
       then file (fields s') = Some f ∧ localError s' = None
       else file (fields s') = None ∧
            localError s' = Some "Please upload a PDF file."%string) ∧
      mode (fields s') = mode (fields s) ∧ text (fields s') = text (fields s) ∧
      numQuestions (fields s') = numQuestions (fields s) ∧
      difficulty (fields s') = difficulty (fields s) ∧
      filter (fields s') = filter (fields s) ∧
      negativeMarking (fields s') = negativeMarking (fields s)
  end.
Proof.
  destruct selectedFile as [f|]; [|reflexivity]. simpl.
  unfold handleFileChange. case_decide as Hpdf.
  - rewrite bool_decide_eq_false_2 by tauto. simpl. repeat split.
  - rewrite bool_decide_eq_true_2 by assumption. simpl. repeat split.
Qed.
End Controls.

End QuizInputMoreFacts.
(** * Every ordering can come out of shuffleArray *)
Module ShuffleReachFacts.
Import App AppFacts.

Section Reach.
Context {A : Type}.
Implicit Types (l : list A) (draw : nat -> nat).

Lemma shuffleArray_defined (random : nat -> UnitDouble) l :
  unitInterval random →
  shuffleArray random (Some <$> l)
  = Some <$> fisherYates (drawAt random (length l)) l.
Proof.
  intros Hunit. unfold shuffleArray, fisherYates. rewrite length_fmap.
  destruct l as [|x l]; [reflexivity|].
  apply shuffleLoop_fisherYates; simpl; [assumption|lia|lia].
Qed.

(** The loop from [i] down reads the draws at the positions up to [i]
    only. *)
Lemma fisherYatesFrom_ext draw draw' i l :
  (∀ k, (k <= i)%nat → draw k = draw' k) →
  fisherYatesFrom draw i l = fisherYatesFrom draw' i l.
Proof.
  revert l. induction i as [|i IH]; intros l Hsame; simpl; [reflexivity|].
  rewrite (Hsame (S i)) by lia. apply IH. intros k Hk. apply Hsame. lia.
Qed.

Lemma exchange_lookup l i j x y :
  l !! i = Some x → l !! j = Some y → exchange l i j !! i = Some y.
Proof.
  intros Hi Hj. unfold exchange. rewrite Hi, Hj.
  pose proof (lookup_lt_Some _ _ _ Hi). pose proof (lookup_lt_Some _ _ _ Hj).
  destruct (decide (i = j)) as [->|Hne].
  - rewrite list_lookup_insert_eq by (by rewrite length_insert). congruence.
  - rewrite list_lookup_insert_ne by done.
    by rewrite list_lookup_insert_eq.
Qed.

Lemma exchange_drop l i j :
  (j <= i)%nat → drop (S i) (exchange l i j) = drop (S i) l.
Proof.
  intros Hj. unfold exchange.
  destruct (l !! i); [|reflexivity]. destruct (l !! j); [|reflexivity].
  by rewrite !drop_insert_lt by lia.
Qed.

(** Two lists that are permutations of each other and share everything
    after position [i] are joined by draws for the positions up to [i]. *)
Lemma fisherYatesFrom_reaches i l l' :
  (i < length l)%nat → l ≡ₚ l' → drop (S i) l = drop (S i) l' →
  ∃ draw, (∀ k, (draw k <= k)%nat) ∧ fisherYatesFrom draw i l = l'.
Proof.
  revert l. induction i as [|i IH]; intros l Hlen Hperm Hdrop.
  - exists (λ _, 0%nat). split; [intros k; lia|]. simpl.
    pose proof (Permutation_length Hperm) as Hl.
    destruct l as [|x t]; [simpl in Hlen; lia|].
    destruct l' as [|y t']; [discriminate|]. simpl in Hdrop.
    rewrite !drop_0 in Hdrop. subst t'.
    apply (Permutation_app_inv_r t [x] [y]) in Hperm.
    apply Permutation_singleton_r in Hperm. congruence.
  - pose proof (Permutation_length Hperm) as Hl.
    destruct (lookup_lt_is_Some_2 l' (S i)) as [y Hy]; [lia|].
    destruct (lookup_lt_is_Some_2 l (S i)) as [x Hx]; [lia|].
    assert (Htake : take (S (S i)) l ≡ₚ take (S (S i)) l').
    { apply (Permutation_app_inv_r (drop (S (S i)) l)).
      rewrite take_drop, Hdrop, take_drop. exact Hperm. }
    assert (Hin : y ∈ take (S (S i)) l).
    { rewrite Htake. apply list_elem_of_lookup. exists (S i).
      rewrite lookup_take_lt by lia. exact Hy. }
    apply list_elem_of_lookup in Hin as [j Hj].
    apply lookup_take_Some in Hj as [Hj Hjlt].
    destruct (IH (exchange l (S i) j)) as (draw' & Hbound & Hreach).
    + rewrite exchange_length. lia.
    + by rewrite exchange_Permutation.
    + rewrite (drop_S _ y) by (by eapply exchange_lookup).
      rewrite (drop_S l' y) by assumption.
      rewrite exchange_drop by lia. by rewrite Hdrop.
    + exists (λ k, if decide (k = S i) then j else draw' k). split.
      * intros k. case_decide; [lia|apply Hbound].
      * simpl. rewrite decide_True by reflexivity.
        rewrite <-Hreach. apply fisherYatesFrom_ext.
        intros k Hk. by rewrite decide_False by lia.
Qed.

(** The value of [Math.random()] that makes position [i] draw [j]. *)
Lemma randomIndex_drawFor (i j : nat) :
  (j <= i)%nat → Z.of_nat i < 2 ^ 32 →
  inUnit (drawFor (Z.of_nat j) (Z.of_nat i + 1)) ∧
  randomIndex (drawFor (Z.of_nat j) (Z.of_nat i + 1)) i = j.
Proof.
  intros Hj Hi.
  destruct (drawFor_spec (Z.of_nat j) (Z.of_nat i + 1)) as [Hr Hfloor];
    [lia|lia|].
  split; [exact Hr|]. unfold randomIndex. rewrite Hfloor. apply Nat2Z.id.
Qed.

(** X19. Every ordering of the array can come out of [shuffleArray]: for
    each permutation of an input of fewer than [2^32] elements (the length
    of a JavaScript array) there is a random source of doubles in
    [[0, 1)] under which the shuffle, with its double-precision products,
    returns exactly that permutation. *)
Theorem shuffleArray_reaches_every_permutation l l' :
  l' ≡ₚ l → Z.of_nat (length l) < 2 ^ 32 →
  ∃ random, unitInterval random ∧
            shuffleArray random (Some <$> l) = Some <$> l'.
Proof.
  intros Hperm Hlen. symmetry in Hperm.
  assert (Hdraw : ∃ draw, (∀ k, (draw k <= k)%nat) ∧
                          fisherYates draw l = l').
  { unfold fisherYates. destruct l as [|x t].
    - apply Permutation_nil_l in Hperm. subst l'.
      exists (λ _, 0%nat). split; [intros; lia|reflexivity].
    - apply fisherYatesFrom_reaches; [simpl; lia|assumption|].
      pose proof (Permutation_length Hperm) as Hl.
      rewrite !drop_ge by (simpl in *; lia). reflexivity. }
  destruct Hdraw as (draw & Hbound & Hreach).
  set (n := length l) in *.
  set (random := λ k : nat,
         drawFor (Z.of_nat (draw (n - 1 - k)%nat))
                 (Z.of_nat (n - 1 - k)%nat + 1)).
  assert (Hunit : unitInterval random).
  { intros k. unfold random.
    apply (randomIndex_drawFor (n - 1 - k) (draw (n - 1 - k)%nat));
      [apply Hbound|lia]. }
  exists random. split; [exact Hunit|].
  rewrite (shuffleArray_defined _ _ Hunit). f_equal. rewrite <-Hreach.
  unfold fisherYates. apply fisherYatesFrom_ext. intros k Hk.
  unfold drawAt, random. fold n.
  replace (n - 1 - (n - 1 - k))%nat with k by lia.
  apply randomIndex_drawFor; [apply Hbound|lia].
Qed.
End Reach.

Lemma shuffleArray_reaches_every_permutation_witness :
  [3; 1; 2]%nat ≡ₚ [1; 2; 3]%nat ∧
  Z.of_nat (length [1; 2; 3]%nat) < 2 ^ 32 ∧
  ∃ random, unitInterval random ∧
            shuffleArray random (Some <$> [1; 2; 3]%nat)
            = Some <$> [3; 1; 2]%nat.
Proof.
  assert (H : [3; 1; 2]%nat ≡ₚ [1; 2; 3]%nat).
  { apply (Permutation_cons_append [1; 2]%nat 3%nat). }
  assert (Hlen : Z.of_nat (length [1; 2; 3]%nat) < 2 ^ 32) by (simpl; lia).
  split; [exact H|]. split; [exact Hlen|].
  exact (shuffleArray_reaches_every_permutation [1; 2; 3]%nat [3; 1; 2]%nat
           H Hlen).
Defined.

End ShuffleReachFacts.
(** * Properties of the PDF text extraction *)
Module UsePdfProcessorFacts.
Import QuizInput GeminiService UsePdfProcessor.

Lemma pagesLoop_concat pages fullText :
  pagesLoop pages fullText
  = fullText ++ concat ((λ items, pageText items ++ blankLine) <$> pages).
Proof.
  revert fullText. induction pages as [|items pages IH]; intros fullText; simpl.
  - by rewrite app_nil_r.
  - by rewrite IH, <-app_assoc.
Qed.

Lemma pagesLoop_length pages :
  (2 * length pages <= length (pagesLoop pages []))%nat.
Proof.
  rewrite pagesLoop_concat, app_nil_l.
  induction pages as [|items pages IH]; [simpl; lia|].
  rewrite fmap_cons. cbn [concat]. rewrite !length_app.
  change (length blankLine) with 2%nat. cbn [length]. lia.
Qed.

(** X20. The extracted text is the concatenation, in page order, of each
    page's text followed by a blank line; extraction distributes over
    splitting the document, and every page contributes at least the two
    line feeds. *)
Theorem extracted_text_by_pages pages pages' :
  pagesLoop pages []
  = concat ((λ items, pageText items ++ blankLine) <$> pages) ∧
  pagesLoop (pages ++ pages') [] = pagesLoop pages [] ++ pagesLoop pages' [] ∧
  (2 * length pages <= length (pagesLoop pages []))%nat.
Proof.
  split; [apply pagesLoop_concat|]. split.
  - rewrite !pagesLoop_concat. simpl. by rewrite fmap_app, concat_app.
  - apply pagesLoop_length.
Qed.

Section Processor.
Variable File : Type.
Variable readDocument : File -> Thrown + list (list Text).

(** X21. The hook reports an error exactly when it resolves to [null],
    which happens exactly when pdf.js is missing or fails on the file; and
    it is never left in the processing state. *)
Theorem processPdf_error_iff_null (libraryLoaded : bool) (f : File) :
  let result := processPdf readDocument libraryLoaded f in
  isProcessing (fst result) = false ∧
  (snd result = None ↔ is_Some (error (fst result))) ∧
  (snd result = None ↔
   libraryLoaded = false ∨ ∃ e, readDocument f = inl e).
Proof.
  unfold processPdf. destruct libraryLoaded; simpl.
  - destruct (readDocument f) as [[message|]|pages]; simpl;
      (split; [reflexivity|]); split; split;
      try discriminate; eauto; try (intros [? [=]]);
      try (intros [[=]|[? [=]]]).
  - split; [reflexivity|]. split; split; eauto.
Qed.

(** X22. In PDF mode no minimum length applies: for a stored file that
    pdf.js reads, a submission with a question count in 1..50 invokes
    generation with the extracted text as soon as the document has a page,
    whatever the pages contain; for a document without pages, and when the
    extraction fails, nothing is generated and no validation message is
    set. *)
Theorem pdf_submission (libraryLoaded : bool) (s : State File) (f : File) :
  mode s = PdfMode → file s = Some f → 1 <= numQuestions s <= 50 →
  handleSubmit (processedText readDocument libraryLoaded) s =
  match libraryLoaded, readDocument f with
  | true, inr (items :: pages) =>
      OnGenerate (pagesLoop (items :: pages) []) (numQuestions s)
                 (difficulty s) (filter s) (negativeMarking s)
  | _, _ => NoGeneration
  end.
Proof.
  intros Hmode Hfile Hnum. unfold handleSubmit.
  rewrite (proj2 (Z.ltb_ge _ _)) by lia.
  rewrite Z.gtb_ltb, (proj2 (Z.ltb_ge _ _)) by lia. simpl.
  rewrite Hmode, Hfile. unfold processedText, processPdf.
  destruct libraryLoaded; simpl; [|reflexivity].
  destruct (readDocument f) as [[message|]|[|items pages]]; simpl;
    try reflexivity.
  pose proof (pagesLoop_length (items :: pages)) as Hlen.
  destruct (pagesLoop (items :: pages) []) as [|c rest] eqn:Htext;
    [simpl in Hlen; lia|].
  simpl in Htext. by rewrite Htext.
Qed.
End Processor.

Lemma pdf_submission_witness :
  mode pdfForm = PdfMode ∧ file pdfForm = Some tt ∧
  1 <= numQuestions pdfForm <= 50 ∧
  handleSubmit (processedText emptyPage true) pdfForm
  = OnGenerate [0x0A%N; 0x0A%N] 10 Medium [] false.
Proof.
  assert (Hmode : mode pdfForm = PdfMode) by reflexivity.
  assert (Hfile : file pdfForm = Some tt) by reflexivity.
  assert (Hnum : 1 <= numQuestions pdfForm <= 50) by (simpl; lia).
  repeat (split; [assumption|]).
  exact (pdf_submission unit emptyPage true pdfForm tt Hmode Hfile Hnum).
Defined.

End UsePdfProcessorFacts.

(** * More properties of generateQuizFromText *)
Module GeminiServiceMoreFacts.
Import GeminiService.

Section Generate.
Variable JSON_parse : string -> Thrown + Json.
Variable trim : string -> string.
Variable nullReadMessage undefinedTrimMessage : string.

Lemma validate_returns quizData quiz :
  validate nullReadMessage quizData = inr quiz →
  quiz = quizData ∧ hasQuestionsSequence quizData = true.
Proof.
  unfold validate, hasQuestionsSequence.
  destruct quizData as [| | | | |members]; simpl; try discriminate.
  destruct (property "questions" members) as [[]|]; simpl;
    rewrite ?orb_true_r; try discriminate.
  intros [= Heq]. subst quiz. by split.
Qed.

(** X23. Whatever the host's parser does, a value that
    [generateQuizFromText] returns is the parsed response text and has a
    [questions] field that is an array. *)
Theorem returned_quiz_is_validated response quiz :
  generateQuizFromText JSON_parse trim nullReadMessage undefinedTrimMessage
    response = inr quiz →
  hasQuestionsSequence quiz = true ∧
  ∃ responseText, response = inr (Some responseText) ∧
                  JSON_parse (trim responseText) = inr quiz.
Proof.
  unfold generateQuizFromText, tryBlock.
  destruct response as [e|[responseText|]]; try discriminate.
  destruct (JSON_parse (trim responseText)) as [e|quizData] eqn:Hparse;
    [discriminate|].
  destruct (validate nullReadMessage quizData) as [e|quiz'] eqn:Hval;
    [discriminate|].
  intros [= ->]. apply validate_returns in Hval as [-> Hseq].
  split; [assumption|]. eauto.
Qed.

End Generate.

Lemma returned_quiz_is_validated_witness :
  generateQuizFromText (parsesTo emptyQuiz) id "null" "undefined"
    (inr (Some "{}"%string)) = inr emptyQuiz ∧
  hasQuestionsSequence emptyQuiz = true.
Proof.
  assert (H : generateQuizFromText (parsesTo emptyQuiz) id "null" "undefined"
                (inr (Some "{}"%string)) = inr emptyQuiz) by reflexivity.
  split; [exact H|].
  exact (proj1 (returned_quiz_is_validated _ _ _ _ _ _ H)).
Defined.

End GeminiServiceMoreFacts.

(** * Properties of the App component *)
Module AppStateFacts.
Import App AppFacts ShuffleReachFacts GeminiService AppState.

Lemma returned_questionsOf
    JSON_parse trim nullReadMessage undefinedTrimMessage response quizData :
  generateQuizFromText JSON_parse trim nullReadMessage undefinedTrimMessage
    response = inr quizData →
  ∃ generatedQuestions, questionsOf quizData = Some generatedQuestions.
Proof.
  unfold generateQuizFromText, tryBlock.
  destruct response as [e|[responseText|]]; try discriminate.
  destruct (JSON_parse (trim responseText)) as [e|parsed]; [discriminate|].
  destruct (validate nullReadMessage parsed) as [e|quiz] eqn:Hval;
    [discriminate|].
  intros [= ->].
  apply GeminiServiceMoreFacts.validate_returns in Hval as [-> Hseq].
  unfold hasQuestionsSequence in Hseq. unfold questionsOf.
  destruct parsed as [| | | | |members]; try discriminate.
  destruct (property "questions" members) as [[| | | |items|]|];
    try discriminate.
  eauto.
Qed.

(** X25. When [generateQuizFromText] returns an object, whatever the App
    state was before and whatever the elements of the object's [questions]
    array are, [App] stops loading and renders [QuizDisplay] with the
    negative-marking choice of this submission and with a questions array
    that is a permutation of the returned one: no element is lost or
    duplicated and no slot is left undefined. *)
Theorem generated_quiz_is_displayed
    JSON_parse trim nullReadMessage undefinedTrimMessage response quizData
    random negMarking s :
  generateQuizFromText JSON_parse trim nullReadMessage undefinedTrimMessage
    response = inr quizData →
  unitInterval random →
  ∃ generatedQuestions shuffled,
    questionsOf quizData = Some generatedQuestions ∧
    view (handleGenerateQuiz random (inr generatedQuestions) negMarking s)
    = Display (Some <$> shuffled) negMarking ∧
    shuffled ≡ₚ generatedQuestions ∧
    isLoading (handleGenerateQuiz random (inr generatedQuestions) negMarking s)
    = false.
Proof.
  intros Hreturn Hunit.
  destruct (returned_questionsOf _ _ _ _ _ _ Hreturn) as [items Hitems].
  exists items,
    (fisherYates (drawAt random (length items)) items).
  split; [exact Hitems|].
  unfold view, handleGenerateQuiz, generateSettle, generateStart. simpl.
  rewrite (shuffleArray_defined _ _ Hunit).
  repeat split. apply fisherYatesFrom_Permutation.
Qed.

Lemma generated_quiz_is_displayed_witness :
  generateQuizFromText (parsesTo sampleResponse) id "null" "undefined"
    (inr (Some "{}"%string)) = inr sampleResponse ∧
  unitInterval (λ _, oneHalf) ∧
  ∃ generatedQuestions shuffled,
    questionsOf sampleResponse = Some generatedQuestions ∧
    view (handleGenerateQuiz (λ _, oneHalf) (inr generatedQuestions) true
            initial)
    = Display (Some <$> shuffled) true.
Proof.
  assert (Hreturn : generateQuizFromText (parsesTo sampleResponse) id "null"
                      "undefined" (inr (Some "{}"%string))
                    = inr sampleResponse) by reflexivity.
  assert (Hunit : unitInterval (λ _, oneHalf)).
  { intros k. unfold inUnit, oneHalf. simpl. lia. }
  split; [exact Hreturn|]. split; [exact Hunit|].
  destruct (generated_quiz_is_displayed _ _ _ _ _ _ (λ _, oneHalf) true
              initial Hreturn Hunit)
    as (generatedQuestions & shuffled & Hq & Hview & _).
  exists generatedQuestions, shuffled. split; assumption.
Defined.



End AppStateFacts.
